(** * The chess bot of [Chess Game/Chess_Bot.py]

    A shallow embedding of [ChessBot]: the static evaluator, the move
    orderer, the alpha-beta search, the opening book and the
    iterative-deepening driver.

    The bot consumes the chess rules through the [chess] package
    (python-chess).  That package is not part of the repository, so the
    bot is embedded over an interface, the class [Rules], listing exactly
    the operations the bot calls.  Theorems about the bot are stated for
    every implementation of the interface; the module [PyChess] at the end
    of the definitions is an executable implementation of the rules of
    chess, used to run the bot on concrete positions. *)

From Stdlib Require Import List ZArith QArith Qcanon Qabs Bool Lia.
From Stdlib Require Import String Ascii Permutation Sorted Arith.
From Stdlib Require Import Orders OrdersTac.
Import ListNotations.

Close Scope Qc_scope.
Close Scope Q_scope.
Open Scope nat_scope.

Set Implicit Arguments.

(** ** Chess data, as the [chess] package has it *)

(** [chess.PAWN] .. [chess.KING]. *)
Inductive PieceType := PAWN | KNIGHT | BISHOP | ROOK | QUEEN | KING.

(** [chess.WHITE = True], [chess.BLACK = False]. *)
Definition Color := bool.
Definition WHITE : Color := true.
Definition BLACK : Color := false.

Record Piece := mkPiece { piece_type : PieceType; color : Color }.

(** Squares are the integers 0..63, a1 = 0, h1 = 7, a8 = 56. *)
Definition Square := nat.

Record Move := mkMove {
  from_square : Square;
  to_square : Square;
  promotion : option PieceType
}.

Definition PieceType_eqb (a b : PieceType) : bool :=
  match a, b with
  | PAWN, PAWN | KNIGHT, KNIGHT | BISHOP, BISHOP
  | ROOK, ROOK | QUEEN, QUEEN | KING, KING => true
  | _, _ => false
  end.

Definition Piece_eqb (p q : Piece) : bool :=
  PieceType_eqb (piece_type p) (piece_type q) && Bool.eqb (color p) (color q).

Definition opt_eqb {A} (eqb : A -> A -> bool) (x y : option A) : bool :=
  match x, y with
  | Some a, Some b => eqb a b
  | None, None => true
  | _, _ => false
  end.

Fixpoint list_eqb {A} (eqb : A -> A -> bool) (l l' : list A) : bool :=
  match l, l' with
  | [], [] => true
  | x :: r, y :: r' => eqb x y && list_eqb eqb r r'
  | _, _ => false
  end.

Definition Move_eqb (m n : Move) : bool :=
  Nat.eqb (from_square m) (from_square n)
  && Nat.eqb (to_square m) (to_square n)
  && opt_eqb PieceType_eqb (promotion m) (promotion n).

(** [chess.square(file, rank)], [chess.square_file], [chess.square_rank],
    [chess.square_mirror] (which is [square ^ 0x38]). *)
Definition square (file rank : nat) : Square := rank * 8 + file.
Definition square_file (sq : Square) : nat := Nat.land sq 7.
Definition square_rank (sq : Square) : nat := Nat.shiftr sq 3.
Definition square_mirror (sq : Square) : Square := Nat.lxor sq 56.

(** [chess.SQUARES]. *)
Definition SQUARES : list Square := seq 0 64.

(** [Move.__bool__]: every move but the null move is truthy. *)
Definition Move_bool (m : Move) : bool :=
  negb (Nat.eqb (from_square m) 0) || negb (Nat.eqb (to_square m) 0)
  || match promotion m with Some _ => true | None => false end.

(** Truth value of an [Optional[Move]] in [if move:]. *)
Definition truthy (o : option Move) : bool :=
  match o with Some m => Move_bool m | None => false end.

(** ** The rules engine, as the bot sees it

    One field per [chess.Board] operation called from [Chess_Bot.py].
    [push] and [pop] mutate the board in place; here they return the
    mutated board.  [pop] on an empty move stack raises in Python; the
    bot only pops what it has pushed. *)
Class Rules (Board : Type) := {
  turn : Board -> Color;
  piece_at : Board -> Square -> option Piece;
  legal_moves : Board -> list Move;
  push : Board -> Move -> Board;
  pop : Board -> Board;
  is_check : Board -> bool;
  is_insufficient_material : Board -> bool;
  is_game_over : Board -> bool;
  is_capture : Board -> Move -> bool;
  fen : Board -> string
}.

(** The stack discipline of the rules engine: undoing the last move
    restores the board, move stack included. *)
Definition PushPopLaw {Board} (R : Rules Board) : Prop :=
  forall (b : Board) (m : Move), pop (push b m) = b.

(** ** Scores

    The evaluator returns [score / 100.0], the search starts from
    [float('-inf')] and [float('inf')].  Finite scores are exact
    rationals in canonical form, so that numeric equality is equality. *)
Inductive score := NegInf | Val (q : Qc) | PosInf.

Definition Zscore (z : Z) : score := Val (Q2Qc (inject_Z z)).

(** [a <= b] and [a < b] on scores. *)
Definition sle (a b : score) : bool :=
  match a, b with
  | NegInf, _ => true
  | _, PosInf => true
  | Val x, Val y => Qle_bool x y
  | _, _ => false
  end.

Definition slt (a b : score) : bool := negb (sle b a).

(** The same as propositions. *)
Inductive score_le (a b : score) : Prop :=
  score_le_intro (H : sle a b = true).

Inductive score_lt (a b : score) : Prop :=
  score_lt_intro (H : sle b a = false).

(** The relations of the order on scores, for the [order] tactic. *)
Module ScoreRelations.
Definition t := score.
Definition eq := @Logic.eq score.
Definition lt := score_lt.
Definition le := score_le.
End ScoreRelations.

(** Python's [max(a, b)] returns [a] unless [b > a]; [min(a, b)] returns
    [a] unless [b < a]. *)
Definition smax (a b : score) : score := if slt a b then b else a.
Definition smin (a b : score) : score := if slt b a then b else a.

(** Unary minus. *)
Definition sopp (a : score) : score :=
  match a with
  | NegInf => PosInf
  | Val q => Val (- q)%Qc
  | PosInf => NegInf
  end.

(** Python's [range(a, b)] and [int(x)] (truncation towards zero). *)
Definition range (a b : nat) : list nat := seq a (b - a).
Definition py_int (x : Q) : Z := Z.quot (Qnum x) (Zpos (Qden x)).

(** ** [ChessBot.__init__]: material values and piece-square tables *)

Definition piece_values (pt : PieceType) : Z :=
  match pt with
  | PAWN => 100
  | KNIGHT => 320
  | BISHOP => 330
  | ROOK => 500
  | QUEEN => 900
  | KING => 20000
  end%Z.

Definition pawn_table : list Z := [
    0;  0;  0;  0;  0;  0;  0;  0;
    50; 50; 50; 50; 50; 50; 50; 50;
    10; 10; 20; 30; 30; 20; 10; 10;
    5;  5; 10; 25; 25; 10;  5;  5;
    0;  0;  0; 20; 20;  0;  0;  0;
    5; -5;-10;  0;  0;-10; -5;  5;
    5; 10; 10;-20;-20; 10; 10;  5;
    0;  0;  0;  0;  0;  0;  0;  0
  ]%Z.

Definition knight_table : list Z := [
    -50;-40;-30;-30;-30;-30;-40;-50;
    -40;-20;  0;  0;  0;  0;-20;-40;
    -30;  0; 10; 15; 15; 10;  0;-30;
    -30;  5; 15; 20; 20; 15;  5;-30;
    -30;  0; 15; 20; 20; 15;  0;-30;
    -30;  5; 10; 15; 15; 10;  5;-30;
    -40;-20;  0;  5;  5;  0;-20;-40;
    -50;-40;-30;-30;-30;-30;-40;-50
  ]%Z.

Definition bishop_table : list Z := [
    -20;-10;-10;-10;-10;-10;-10;-20;
    -10;  0;  0;  0;  0;  0;  0;-10;
    -10;  0;  5; 10; 10;  5;  0;-10;
    -10;  5;  5; 10; 10;  5;  5;-10;
    -10;  0; 10; 10; 10; 10;  0;-10;
    -10; 10; 10; 10; 10; 10; 10;-10;
    -10;  5;  0;  0;  0;  0;  5;-10;
    -20;-10;-10;-10;-10;-10;-10;-20
  ]%Z.

(** [get_positional_bonus].  A table is indexed by the square number
    (squares are below 64, the length of each table). *)
Definition get_positional_bonus (piece : Piece) (square : Square) : Z :=
  let square :=
    if Bool.eqb (color piece) BLACK then square_mirror square else square in
  match piece_type piece with
  | PAWN => nth square pawn_table 0%Z
  | KNIGHT => nth square knight_table 0%Z
  | BISHOP => nth square bishop_table 0%Z
  | ROOK =>
      let file := square_file square in
      if existsb (Nat.eqb file) [2; 3; 4; 5] then 10%Z else 0%Z
  | QUEEN =>
      let file := square_file square in
      let rank := square_rank square in
      let center_distance :=
        (Qabs (3.5 - inject_Z (Z.of_nat file))
         + Qabs (3.5 - inject_Z (Z.of_nat rank)))%Q in
      py_int ((8 - center_distance) * 5)%Q
  | KING => 0%Z
  end.

(** ** [list.sort(reverse=True, key=...)]

    Python's sort is stable, also with [reverse=True]: the result is the
    one arrangement in descending key order that keeps elements of equal
    key in their input order.  It is computed here by insertion. *)
Fixpoint insert_desc {A} (key : A -> Z) (x : A) (l : list A) : list A :=
  match l with
  | [] => [x]
  | y :: l' =>
      if (key x <? key y)%Z then y :: insert_desc key x l' else x :: l
  end.

Definition sort_reverse {A} (key : A -> Z) (l : list A) : list A :=
  fold_right (insert_desc key) [] l.

(** Descending order of the keys. *)
Definition key_ge {A} (key : A -> Z) (x y : A) : Prop := (key y <= key x)%Z.

(** ** [chess.Move.from_uci] on the four-character moves of the book *)

Definition file_of_ascii (c : ascii) : nat := nat_of_ascii c - 97.
Definition rank_of_ascii (c : ascii) : nat := nat_of_ascii c - 49.

Definition from_uci (uci : string) : Move :=
  match uci with
  | String f1 (String r1 (String f2 (String r2 EmptyString))) =>
      mkMove (square (file_of_ascii f1) (rank_of_ascii r1))
             (square (file_of_ascii f2) (rank_of_ascii r2)) None
  | _ => mkMove 0 0 None
  end.

(** [s.split(' ')[0]]: the characters before the first space. *)
Fixpoint split_space_first (s : string) : string :=
  match s with
  | EmptyString => EmptyString
  | String c rest =>
      if Ascii.eqb c " " then EmptyString
      else String c (split_space_first rest)
  end.

(** The twelve pieces. *)
Definition PIECE_TYPES : list PieceType :=
  [PAWN; KNIGHT; BISHOP; ROOK; QUEEN; KING].

Definition PIECES : list Piece :=
  flat_map (fun pt => [mkPiece pt WHITE; mkPiece pt BLACK]) PIECE_TYPES.

(** The square on the same rank, as far from the h-file as [sq] is from
    the a-file. *)
Definition square_flip (sq : Square) : Square :=
  square (7 - square_file sq) (square_rank sq).

(** ** The bot over a rules engine *)

Section ChessBot.

Context {Board : Type} {R : Rules Board}.

(** [board.is_checkmate()] and [board.is_stalemate()]: the side to move
    has no legal move and is, respectively is not, in check. *)
Definition is_checkmate (board : Board) : bool :=
  is_check board && match legal_moves board with [] => true | _ => false end.

Definition is_stalemate (board : Board) : bool :=
  negb (is_check board)
  && match legal_moves board with [] => true | _ => false end.

(** [board.piece_map()]: the occupied squares with their pieces, from h8
    down to a1. *)
Definition piece_map (board : Board) : list (Square * Piece) :=
  flat_map (fun sq => match piece_at board sq with
                      | Some p => [(sq, p)]
                      | None => []
                      end) (rev SQUARES).

(** [board.pieces(piece_type, color)]: the squares holding that piece, in
    increasing order. *)
Definition pieces (board : Board) (pt : PieceType) (c : Color) : list Square :=
  filter (fun sq => opt_eqb Piece_eqb (piece_at board sq) (Some (mkPiece pt c)))
         SQUARES.

(** The loop of [evaluate_board] over [piece_map.items()]. *)
Definition material_score (board : Board) : Z :=
  fold_left
    (fun score '(square, piece) =>
       let value := piece_values (piece_type piece) in
       let positional_bonus := get_positional_bonus piece square in
       if Bool.eqb (color piece) WHITE
       then score + (value + positional_bonus)
       else score - (value + positional_bonus))%Z
    (piece_map board) 0%Z.

(** The mobility term of [evaluate_board]. *)
Definition mobility_score (board : Board) : Z :=
  let mobility := Z.of_nat (List.length (legal_moves board)) in
  (if Bool.eqb (turn board) WHITE then mobility * 5 else - (mobility * 5))%Z.

(** The two nested [for] loops with [break] that compute [is_passed]:
    no pawn of colour [c] on the files [f-1], [f], [f+1] (clamped to the
    board) at any of the [ranks]. *)
Definition is_passed (board : Board) (c : Color) (file : nat)
    (ranks : list nat) : bool :=
  forallb
    (fun f =>
       forallb
         (fun r =>
            let test_square := square f r in
            negb (opt_eqb Piece_eqb (piece_at board test_square)
                                    (Some (mkPiece PAWN c))))
         ranks)
    [Nat.max 0 (file - 1); file; Nat.min 7 (file + 1)].

(** [evaluate_pawn_structure_simple]. *)
Definition evaluate_pawn_structure_simple (board : Board) : Z :=
  let score := 0%Z in
  let pawns := pieces board PAWN WHITE in
  let score :=
    fold_left
      (fun score pawn =>
         let file := square_file pawn in
         let rank := square_rank pawn in
         if is_passed board BLACK file (range (rank + 1) 8)
         then (score + Z.of_nat rank * 10)%Z
         else score)
      pawns score in
  let black_pawns := pieces board PAWN BLACK in
  fold_left
    (fun score pawn =>
       let file := square_file pawn in
       let rank := square_rank pawn in
       if is_passed board WHITE file (range 0 rank)
       then (score - (7 - Z.of_nat rank) * 10)%Z
       else score)
    black_pawns score.

(** [evaluate_board]. *)
Definition evaluate_board (board : Board) : score :=
  if is_checkmate board then
    if turn board then Zscore (-100000) else Zscore 100000
  else if is_stalemate board || is_insufficient_material board then
    Zscore 0
  else
    let score := material_score board in
    let score := (score + mobility_score board)%Z in
    let score := (score + evaluate_pawn_structure_simple board)%Z in
    Val (Q2Qc (Qmake score 100)).

(** *** State

    The bot works on one board object, mutated in place by [push] and
    [pop], counts the nodes it visits in [self.nodes_searched], and reads
    the wall clock.  [clock k] is what the [k]-th call of [time.time()]
    returns. *)
Record World := mkWorld {
  board : Board;
  nodes_searched : Z;
  clock_reads : nat
}.

Definition M (A : Type) : Type := World -> A * World.

Definition ret {A} (a : A) : M A := fun w => (a, w).
Definition bind {A B} (c : M A) (k : A -> M B) : M B :=
  fun w => let (a, w') := c w in k a w'.

Notation "x <- c ;; k" := (bind c (fun x => k))
  (at level 61, c at next level, right associativity).
Notation "c ;; k" := (bind c (fun _ => k))
  (at level 61, right associativity).

Definition get_board : M Board := fun w => (board w, w).
Definition board_push (move : Move) : M unit :=
  fun w => (tt, mkWorld (push (board w) move) (nodes_searched w) (clock_reads w)).
Definition board_pop : M unit :=
  fun w => (tt, mkWorld (pop (board w)) (nodes_searched w) (clock_reads w)).
Definition count_node : M unit :=
  fun w => (tt, mkWorld (board w) (nodes_searched w + 1) (clock_reads w)).
Definition reset_nodes : M unit :=
  fun w => (tt, mkWorld (board w) 0 (clock_reads w)).

Variable clock : nat -> Q.

Definition time_time : M Q :=
  fun w => (clock (clock_reads w),
            mkWorld (board w) (nodes_searched w) (S (clock_reads w))).

(** *** [order_moves_fast] *)

(** The MVV-LVA block: the score of a move before the promotion and
    check bonuses. *)
Definition capture_score (board : Board) (move : Move) : Z :=
  let score := 0%Z in
  if is_capture board move then
    let victim := piece_at board (to_square move) in
    let aggressor := piece_at board (from_square move) in
    match victim, aggressor with
    | Some victim, Some aggressor =>
        let victim_value := piece_values (piece_type victim) in
        let aggressor_value := piece_values (piece_type aggressor) in
        (victim_value - aggressor_value + 1000)%Z
    | _, _ => score
    end
  else score.

(** The body of the loop over [moves]: the score of one move. *)
Definition score_move (move : Move) : M Z :=
  board <- get_board ;;
  let score := capture_score board move in
  let score :=
    match promotion move with
    | Some _ => (score + 900)%Z
    | None => score
    end in
  board_push move ;;
  board <- get_board ;;
  let score := if is_check board then (score + 50)%Z else score in
  board_pop ;;
  ret score.

Fixpoint score_moves (moves : list Move) : M (list (Z * Move)) :=
  match moves with
  | [] => ret []
  | move :: rest =>
      score <- score_move move ;;
      move_scores <- score_moves rest ;;
      ret ((score, move) :: move_scores)
  end.

Definition order_moves_fast (moves : list Move) : M (list Move) :=
  move_scores <- score_moves moves ;;
  let move_scores := sort_reverse fst move_scores in
  ret (map snd move_scores).

(** *** [minimax_alpha_beta] *)

(** The [for move in legal_moves] loop of the maximizing player;
    [search] is the recursive call at [depth - 1]. *)
Fixpoint max_loop (search : score -> score -> M score) (legal_moves : list Move)
    (alpha beta max_eval : score) : M score :=
  match legal_moves with
  | [] => ret max_eval
  | move :: rest =>
      board_push move ;;
      eval_score <- search alpha beta ;;
      board_pop ;;
      let max_eval := smax max_eval eval_score in
      let alpha := smax alpha eval_score in
      if sle beta alpha then ret max_eval
      else max_loop search rest alpha beta max_eval
  end.

(** The loop of the minimizing player. *)
Fixpoint min_loop (search : score -> score -> M score) (legal_moves : list Move)
    (alpha beta min_eval : score) : M score :=
  match legal_moves with
  | [] => ret min_eval
  | move :: rest =>
      board_push move ;;
      eval_score <- search alpha beta ;;
      board_pop ;;
      let min_eval := smin min_eval eval_score in
      let beta := smin beta eval_score in
      if sle beta alpha then ret min_eval
      else min_loop search rest alpha beta min_eval
  end.

(** [depth] is a natural number: the driver calls the search with
    [depth - 1] for [depth >= 1], and the search recurses on [depth - 1]
    only when [depth] is not 0. *)
Fixpoint minimax_alpha_beta (depth : nat) (alpha beta : score)
    (maximizing_player : bool) : M score :=
  count_node ;;
  match depth with
  | O =>
      board <- get_board ;;
      ret (evaluate_board board)
  | S depth' =>
      board <- get_board ;;
      if is_game_over board then
        if is_checkmate board then
          ret (if maximizing_player then Zscore (-100000) else Zscore 100000)
        else ret (Zscore 0)
      else
        let legal_moves := legal_moves board in
        legal_moves <- order_moves_fast legal_moves ;;
        if maximizing_player then
          max_loop (fun alpha beta => minimax_alpha_beta depth' alpha beta false)
                   legal_moves alpha beta NegInf
        else
          min_loop (fun alpha beta => minimax_alpha_beta depth' alpha beta true)
                   legal_moves alpha beta PosInf
  end.

(** *** [get_opening_move] *)

Definition opening_moves : list (string * list Move) := [
  ("rnbqkbnr/pppppppp/8/8/8/8/PPPPPPPP/RNBQKBNR w KQkq - 0 1"%string,
   [from_uci "e2e4"; from_uci "d2d4"; from_uci "g1f3"]);
  ("rnbqkbnr/pppppppp/8/8/4P3/8/PPPP1PPP/RNBQKBNR b KQkq - 0 1"%string,
   [from_uci "e7e5"; from_uci "c7c5"; from_uci "e7e6"])
].

(** [key in d] and [d[key]] on the dictionary. *)
Definition dict_get {A} (d : list (string * A)) (key : string) : option A :=
  option_map snd (find (fun kv => String.eqb (fst kv) key) d).

(** [move in board.legal_moves]. *)
Definition is_legal (board : Board) (move : Move) : bool :=
  existsb (Move_eqb move) (legal_moves board).

Definition get_opening_move (board : Board) : option Move :=
  let fen := split_space_first (fen board) in
  match dict_get opening_moves fen with
  | Some moves => find (is_legal board) moves
  | None => None
  end.

(** *** [get_best_move_fast] *)

(** [best_move if best_move else legal_moves[0]]; the list is not empty
    where the driver evaluates this. *)
Definition best_or_first (best_move : option Move) (legal_moves : list Move)
    : option Move :=
  if truthy best_move then best_move else hd_error legal_moves.

(** The loop over the root moves at one depth.  [inl r]: the function
    returned [r] from inside the loop (time is up); [inr]: the loop ran to
    its end with these [current_best] and [current_best_value]. *)
Fixpoint root_loop (start_time time_limit : Q) (depth : nat)
    (legal_moves : list Move) (best_move : option Move)
    (moves : list Move) (current_best : option Move)
    (current_best_value : score)
    : M (option Move + option Move * score) :=
  match moves with
  | [] => ret (inr (current_best, current_best_value))
  | move :: rest =>
      now <- time_time ;;
      if negb (Qle_bool (now - start_time) time_limit) then
        ret (inl (best_or_first best_move legal_moves))
      else
        board_push move ;;
        value <- minimax_alpha_beta (depth - 1) NegInf PosInf false ;;
        board_pop ;;
        if slt current_best_value value then
          root_loop start_time time_limit depth legal_moves best_move
                    rest (Some move) value
        else
          root_loop start_time time_limit depth legal_moves best_move
                    rest current_best current_best_value
  end.

(** The loop [for depth in range(1, self.max_depth + 1)]. *)
Fixpoint deepening_loop (start_time time_limit : Q) (legal_moves : list Move)
    (depths : list nat) (best_move : option Move) : M (option Move) :=
  match depths with
  | [] => ret (best_or_first best_move legal_moves)
  | depth :: rest =>
      reset_nodes ;;
      r <- root_loop start_time time_limit depth legal_moves best_move
                     legal_moves None NegInf ;;
      match r with
      | inl result => ret result
      | inr (current_best, current_best_value) =>
          let best_move :=
            if truthy current_best then current_best else best_move in
          if slt (Zscore 5000) current_best_value then ret current_best
          else
            now <- time_time ;;
            if negb (Qle_bool (now - start_time) (time_limit / 2)) then
              ret (best_or_first best_move legal_moves)
            else
              deepening_loop start_time time_limit legal_moves rest best_move
      end
  end.

(** [max_depth] is [self.max_depth]; for a negative value the range of
    depths is empty, as it is for 0. *)
Definition get_best_move_fast (max_depth : nat) (time_limit : Q)
    : M (option Move) :=
  start_time <- time_time ;;
  board <- get_board ;;
  let best_move : option Move := None in
  let legal_moves := legal_moves board in
  match legal_moves with
  | [] => ret None
  | [only_move] => ret (Some only_move)
  | _ =>
      let opening_move := get_opening_move board in
      if truthy opening_move then ret opening_move
      else
        legal_moves <- order_moves_fast legal_moves ;;
        deepening_loop start_time time_limit legal_moves
                       (range 1 (max_depth + 1)) best_move
  end.

(** [get_best_move]. *)
Definition get_best_move (max_depth : nat) : M (option Move) :=
  get_best_move_fast max_depth 1.5%Q.

End ChessBot.

(** ** The exhaustive search of the specification

    Plain minimax to the same depth, over the same tree (the legal moves of
    each position, each applied to it), with the same leaf evaluation and
    the same scores for finished games, and no window. *)
Section Exhaustive.

Context {Board : Type} {R : Rules Board}.

Fixpoint minimax_exhaustive (depth : nat) (board : Board)
    (maximizing_player : bool) : score :=
  match depth with
  | O => evaluate_board board
  | S depth' =>
      if is_game_over board then
        if is_checkmate board then
          if maximizing_player then Zscore (-100000) else Zscore 100000
        else Zscore 0
      else
        let values :=
          map (fun move =>
                 minimax_exhaustive depth' (push board move)
                                    (negb maximizing_player))
              (legal_moves board) in
        if maximizing_player then fold_left smax values NegInf
        else fold_left smin values PosInf
  end.

(** What one square adds to the score in the loop of [evaluate_board]
    over the pieces, and in the two loops of
    [evaluate_pawn_structure_simple] over the pawns. *)
Definition square_value (board : Board) (sq : Square) : Z :=
  match piece_at board sq with
  | Some piece =>
      let value := piece_values (piece_type piece) in
      let positional_bonus := get_positional_bonus piece sq in
      if Bool.eqb (color piece) WHITE then (value + positional_bonus)%Z
      else (- (value + positional_bonus))%Z
  | None => 0%Z
  end.

Definition white_pawn_value (board : Board) (sq : Square) : Z :=
  if opt_eqb Piece_eqb (piece_at board sq) (Some (mkPiece PAWN WHITE))
     && is_passed board BLACK (square_file sq) (range (square_rank sq + 1) 8)
  then (Z.of_nat (square_rank sq) * 10)%Z else 0%Z.

Definition black_pawn_value (board : Board) (sq : Square) : Z :=
  if opt_eqb Piece_eqb (piece_at board sq) (Some (mkPiece PAWN BLACK))
     && is_passed board WHITE (square_file sq) (range 0 (square_rank sq))
  then ((7 - Z.of_nat (square_rank sq)) * 10)%Z else 0%Z.

Definition total (values : list Z) : Z := fold_right Z.add 0%Z values.

(** The colour-mirrored counterpart of a piece and of a position: every
    piece reflected vertically with its colour swapped, the side to move
    swapped; the rules engine sees the same game from the other side. *)
Definition mirror_piece (p : option Piece) : option Piece :=
  option_map (fun p => mkPiece (piece_type p) (negb (color p))) p.

Definition color_mirrored (b b' : Board) : Prop :=
  (forall sq, sq < 64 ->
     piece_at b' sq = mirror_piece (piece_at b (square_mirror sq)))
  /\ turn b' = negb (turn b)
  /\ is_checkmate b' = is_checkmate b
  /\ is_stalemate b' = is_stalemate b
  /\ is_insufficient_material b' = is_insufficient_material b.

End Exhaustive.

(** ** An executable rules engine

    The rules of chess behind the interface [Rules], with the conventions
    of the [chess] package: the board keeps a stack of earlier states,
    [push] saves the state and plays the move, [pop] restores it. *)
Module PyChess.

Record State := mkState {
  squares : list (option Piece);
  side : Color;
  castling_rights : list Square;
  ep_square : option Square;
  halfmove_clock : nat;
  fullmove_number : nat
}.

Record Board := mkBoard { state : State; stack : list State }.

Definition at_sq (sqs : list (option Piece)) (sq : Square) : option Piece :=
  nth sq sqs None.

Fixpoint set_sq (sq : Square) (p : option Piece) (sqs : list (option Piece))
    : list (option Piece) :=
  match sqs, sq with
  | [], _ => []
  | _ :: rest, O => p :: rest
  | q :: rest, S sq' => q :: set_sq sq' p rest
  end.

Definition file_of (sq : Square) : nat := sq mod 8.
Definition rank_of (sq : Square) : nat := sq / 8.
Definition abs_diff (a b : nat) : nat := if a <=? b then b - a else a - b.
Definition step (a b : nat) : Z :=
  if a <? b then 1%Z else if b <? a then (-1)%Z else 0%Z.

(** The [n] squares after [(f, r)] in direction [(df, dr)] are empty. *)
Fixpoint ray_clear (sqs : list (option Piece)) (n : nat) (f r df dr : Z)
    : bool :=
  match n with
  | O => true
  | S n' =>
      let f' := (f + df)%Z in
      let r' := (r + dr)%Z in
      match at_sq sqs (Z.to_nat (r' * 8 + f')) with
      | None => ray_clear sqs n' f' r' df dr
      | Some _ => false
      end
  end.

Definition line_clear (sqs : list (option Piece)) (from to : Square) : bool :=
  let dist := Nat.max (abs_diff (file_of from) (file_of to))
                      (abs_diff (rank_of from) (rank_of to)) in
  ray_clear sqs (dist - 1)
            (Z.of_nat (file_of from)) (Z.of_nat (rank_of from))
            (step (file_of from) (file_of to))
            (step (rank_of from) (rank_of to)).

(** The piece [p] standing on [from] attacks the square [to]. *)
Definition attacks (sqs : list (option Piece)) (p : Piece) (from to : Square)
    : bool :=
  let df := abs_diff (file_of from) (file_of to) in
  let dr := abs_diff (rank_of from) (rank_of to) in
  let straight := ((df =? 0) || (dr =? 0)) && negb (from =? to) in
  let diagonal := (df =? dr) && negb (from =? to) in
  match piece_type p with
  | PAWN =>
      (df =? 1)
      && (if color p then rank_of to =? rank_of from + 1
          else rank_of from =? rank_of to + 1)
  | KNIGHT => ((df =? 1) && (dr =? 2)) || ((df =? 2) && (dr =? 1))
  | BISHOP => if diagonal then line_clear sqs from to else false
  | ROOK => if straight then line_clear sqs from to else false
  | QUEEN => if straight || diagonal then line_clear sqs from to else false
  | KING => Nat.max df dr =? 1
  end.

Definition attacked_by (sqs : list (option Piece)) (c : Color) (target : Square)
    : bool :=
  existsb (fun from =>
             match at_sq sqs from with
             | Some p => Bool.eqb (color p) c && attacks sqs p from target
             | None => false
             end) SQUARES.

Definition king_square (sqs : list (option Piece)) (c : Color)
    : option Square :=
  find (fun sq => opt_eqb Piece_eqb (at_sq sqs sq) (Some (mkPiece KING c)))
       SQUARES.

Definition in_check (sqs : list (option Piece)) (c : Color) : bool :=
  match king_square sqs c with
  | Some k => attacked_by sqs (negb c) k
  | None => false
  end.

Definition is_empty (sqs : list (option Piece)) (sq : Square) : bool :=
  match at_sq sqs sq with None => true | Some _ => false end.

Definition has_color (sqs : list (option Piece)) (c : Color) (sq : Square)
    : bool :=
  match at_sq sqs sq with Some p => Bool.eqb (color p) c | None => false end.

(** A pawn standing on [from] captures en passant by moving to [to]. *)
Definition ep_capture (s : State) (from to : Square) : bool :=
  opt_eqb Nat.eqb (ep_square s) (Some to)
  && match at_sq (squares s) from with
     | Some p => PieceType_eqb (piece_type p) PAWN
     | None => false
     end
  && existsb (Nat.eqb (abs_diff to from)) [7; 9]
  && is_empty (squares s) to.

(** The squares after the move: the piece (or the piece it promotes to)
    lands on [to]; a pawn taken en passant and the rook of a castling
    move are handled. *)
Definition play_squares (s : State) (m : Move) : list (option Piece) :=
  let sqs := squares s in
  let from := from_square m in
  let to := to_square m in
  match at_sq sqs from with
  | None => sqs
  | Some p =>
      let landed :=
        match promotion m with
        | Some pt => mkPiece pt (color p)
        | None => p
        end in
      let sqs1 := set_sq to (Some landed) (set_sq from None sqs) in
      let sqs2 :=
        if ep_capture s from to
        then set_sq (if color p then to - 8 else to + 8) None sqs1
        else sqs1 in
      if PieceType_eqb (piece_type p) KING && (abs_diff from to =? 2)
      then
        if from <? to
        then set_sq (from + 1) (at_sq sqs (from + 3))
                    (set_sq (from + 3) None sqs2)
        else set_sq (from - 1) (at_sq sqs (from - 4))
                    (set_sq (from - 4) None sqs2)
      else sqs2
  end.

Definition play (s : State) (m : Move) : State :=
  let sqs := squares s in
  let from := from_square m in
  let to := to_square m in
  let moved := at_sq sqs from in
  let is_pawn :=
    match moved with
    | Some p => PieceType_eqb (piece_type p) PAWN
    | None => false
    end in
  let is_king :=
    match moved with
    | Some p => PieceType_eqb (piece_type p) KING
    | None => false
    end in
  let zeroing := is_pawn || negb (is_empty sqs to) in
  let home := if side s then 0 else 56 in
  let rights :=
    filter (fun r => negb (r =? from) && negb (r =? to)
                     && negb (is_king && (rank_of r =? rank_of home)))
           (castling_rights s) in
  let ep :=
    if is_pawn && (abs_diff from to =? 16)
    then Some (if side s then from + 8 else from - 8)
    else None in
  mkState (play_squares s m) (negb (side s)) rights ep
          (if zeroing then 0 else S (halfmove_clock s))
          (if side s then fullmove_number s else S (fullmove_number s)).

(** The king of [c] is not left in check by the move. *)
Definition safe (s : State) (m : Move) : bool :=
  negb (in_check (play_squares s m) (side s)).

Definition promotions (from to : Square) : list Move :=
  map (fun pt => mkMove from to (Some pt)) [QUEEN; ROOK; BISHOP; KNIGHT].

Definition pawn_moves (s : State) (p : Piece) (from to : Square) : list Move :=
  let sqs := squares s in
  let c := color p in
  let forward1 := if c then from + 8 else from - 8 in
  let forward2 := if c then from + 16 else from - 16 in
  let start_rank := if c then 1 else 6 in
  let last_rank := if c then 7 else 0 in
  let advance :=
    (file_of from =? file_of to)
    && is_empty sqs to
    && (((to =? forward1) && negb (rank_of from =? last_rank))
        || ((to =? forward2) && (rank_of from =? start_rank)
            && is_empty sqs forward1)) in
  let capture :=
    attacks sqs p from to
    && (has_color sqs (negb c) to || ep_capture s from to) in
  if advance || capture then
    if rank_of to =? last_rank then promotions from to
    else [mkMove from to None]
  else [].

(** Castling of the king on [from] to [to]: the right is still held, the
    rook is at home, the squares between are empty, and the king neither
    stands on, crosses nor reaches an attacked square. *)
Definition castling_move (s : State) (p : Piece) (from to : Square) : bool :=
  let sqs := squares s in
  let c := color p in
  let home := if c then 4 else 60 in
  let rook := mkPiece ROOK c in
  let free sq := negb (attacked_by sqs (negb c) sq) in
  if negb (from =? home) then false
  else if to =? home + 2 then
    if existsb (Nat.eqb (home + 3)) (castling_rights s)
       && opt_eqb Piece_eqb (at_sq sqs (home + 3)) (Some rook)
       && is_empty sqs (home + 1) && is_empty sqs (home + 2)
    then free home && free (home + 1) && free (home + 2)
    else false
  else if to =? home - 2 then
    if existsb (Nat.eqb (home - 4)) (castling_rights s)
       && opt_eqb Piece_eqb (at_sq sqs (home - 4)) (Some rook)
       && is_empty sqs (home - 1) && is_empty sqs (home - 2)
       && is_empty sqs (home - 3)
    then free home && free (home - 1) && free (home - 2)
    else false
  else false.

(** The moves of the piece on [from] to [to], before the king's safety is
    looked at. *)
Definition pseudo_moves (s : State) (from to : Square) : list Move :=
  let sqs := squares s in
  match at_sq sqs from with
  | None => []
  | Some p =>
      if negb (Bool.eqb (color p) (side s)) || has_color sqs (side s) to
      then []
      else
        match piece_type p with
        | PAWN => pawn_moves s p from to
        | KING =>
            if attacks sqs p from to then [mkMove from to None]
            else if castling_move s p from to then [mkMove from to None]
            else []
        | _ => if attacks sqs p from to then [mkMove from to None] else []
        end
  end.

(** The legal moves, by origin square, then by destination square. *)
Definition generate_legal_moves (s : State) : list Move :=
  flat_map
    (fun from =>
       match at_sq (squares s) from with
       | None => []
       | Some _ =>
           flat_map (fun to => filter (safe s) (pseudo_moves s from to))
                    SQUARES
       end)
    SQUARES.

Definition push (b : Board) (m : Move) : Board :=
  mkBoard (play (state b) m) (state b :: stack b).

Definition pop (b : Board) : Board :=
  match stack b with
  | s :: rest => mkBoard s rest
  | [] => b
  end.

(** [Board.is_capture]: the move touches a square held by the opponent,
    or is an en passant capture. *)
Definition is_capture (b : Board) (m : Move) : bool :=
  let s := state b in
  has_color (squares s) (negb (side s)) (from_square m)
  || has_color (squares s) (negb (side s)) (to_square m)
  || ep_capture s (from_square m) (to_square m).

Definition count_pieces (sqs : list (option Piece))
    (keep : Square -> Piece -> bool) : nat :=
  List.length
    (filter (fun sq => match at_sq sqs sq with
                       | Some p => keep sq p
                       | None => false
                       end) SQUARES).

Definition is_type (pts : list PieceType) (p : Piece) : bool :=
  existsb (PieceType_eqb (piece_type p)) pts.

Definition dark_square (sq : Square) : bool :=
  Nat.even (file_of sq + rank_of sq).

(** [Board.has_insufficient_material(color)]. *)
Definition has_insufficient_material (sqs : list (option Piece)) (c : Color)
    : bool :=
  let mine p := Bool.eqb (color p) c in
  if negb (count_pieces sqs
             (fun _ p => mine p && is_type [PAWN; ROOK; QUEEN] p) =? 0)
  then false
  else if negb (count_pieces sqs (fun _ p => mine p && is_type [KNIGHT] p) =? 0)
  then (count_pieces sqs (fun _ p => mine p) <=? 2)
       && (count_pieces sqs
             (fun _ p => negb (mine p) && negb (is_type [KING; QUEEN] p)) =? 0)
  else if negb (count_pieces sqs (fun _ p => mine p && is_type [BISHOP] p) =? 0)
  then
    let same_color :=
      (count_pieces sqs (fun sq p => is_type [BISHOP] p && dark_square sq) =? 0)
      || (count_pieces sqs
            (fun sq p => is_type [BISHOP] p && negb (dark_square sq)) =? 0) in
    same_color && (count_pieces sqs (fun _ p => is_type [PAWN; KNIGHT] p) =? 0)
  else true.

Definition is_insufficient_material (b : Board) : bool :=
  has_insufficient_material (squares (state b)) WHITE
  && has_insufficient_material (squares (state b)) BLACK.

Definition is_check (b : Board) : bool :=
  in_check (squares (state b)) (side (state b)).

Definition legal_moves (b : Board) : list Move :=
  generate_legal_moves (state b).

Definition no_moves (b : Board) : bool :=
  match legal_moves b with [] => true | _ => false end.

(** The position, as far as repetition is concerned. *)
Definition same_position (s t : State) : bool :=
  list_eqb (opt_eqb Piece_eqb) (squares s) (squares t)
  && Bool.eqb (side s) (side t)
  && list_eqb Nat.eqb (castling_rights s) (castling_rights t)
  && opt_eqb Nat.eqb (ep_square s) (ep_square t).

(** [Board.is_game_over()] without draw claims: checkmate, stalemate,
    insufficient material, the seventy-five-move rule, fivefold
    repetition. *)
Definition is_game_over (b : Board) : bool :=
  no_moves b
  || is_insufficient_material b
  || (150 <=? halfmove_clock (state b))
  || (4 <=? List.length (filter (same_position (state b)) (stack b))).

(** *** FEN *)

Definition piece_symbol (p : Piece) : ascii :=
  let c := match piece_type p with
           | PAWN => "p" | KNIGHT => "n" | BISHOP => "b"
           | ROOK => "r" | QUEEN => "q" | KING => "k"
           end%char in
  if color p then ascii_of_nat (nat_of_ascii c - 32) else c.

Definition digit (n : nat) : ascii := ascii_of_nat (48 + n).

Fixpoint decimal_aux (fuel n : nat) (acc : string) : string :=
  match fuel with
  | O => acc
  | S fuel' =>
      let acc' := String (digit (n mod 10)) acc in
      if n / 10 =? 0 then acc' else decimal_aux fuel' (n / 10) acc'
  end.

Definition decimal (n : nat) : string := decimal_aux (S n) n EmptyString.

(** One rank of the piece placement: pieces by symbol, runs of empty
    squares by their length. *)
Fixpoint rank_fen (row : list (option Piece)) (empty : nat) : string :=
  match row with
  | [] => if empty =? 0 then EmptyString else String (digit empty) EmptyString
  | None :: rest => rank_fen rest (S empty)
  | Some p :: rest =>
      let tail := String (piece_symbol p) (rank_fen rest 0) in
      if empty =? 0 then tail else String (digit empty) tail
  end.

Definition board_fen (sqs : list (option Piece)) : string :=
  String.concat "/"
    (map (fun r => rank_fen (firstn 8 (skipn (r * 8) sqs)) 0)
         [7; 6; 5; 4; 3; 2; 1; 0]).

Definition square_name (sq : Square) : string :=
  String (ascii_of_nat (97 + file_of sq))
         (String (digit (rank_of sq + 1)) EmptyString).

Definition castling_fen (s : State) : string :=
  let right sq c :=
    if existsb (Nat.eqb sq) (castling_rights s) then c else EmptyString in
  let all := (right 7 "K" ++ right 0 "Q" ++ right 63 "k" ++ right 56 "q")%string in
  if String.eqb all EmptyString then "-"%string else all.

(** The en passant field names the square only when a legal en passant
    capture exists. *)
Definition ep_fen (s : State) : string :=
  match ep_square s with
  | Some sq =>
      if existsb (fun m => ep_capture s (from_square m) (to_square m))
                 (generate_legal_moves s)
      then square_name sq else "-"%string
  | None => "-"%string
  end.

Definition fen (b : Board) : string :=
  let s := state b in
  String.concat " "
    [board_fen (squares s);
     if side s then "w"%string else "b"%string;
     castling_fen s;
     ep_fen s;
     decimal (halfmove_clock s);
     decimal (fullmove_number s)].

#[global] Instance rules : Rules Board :=
  @Build_Rules Board
    (fun b => side (state b))
    (fun b sq => at_sq (squares (state b)) sq)
    legal_moves push pop is_check is_insufficient_material is_game_over
    is_capture fen.

(** *** Positions *)

Definition back_rank (c : Color) : list (option Piece) :=
  map (fun pt => Some (mkPiece pt c))
      [ROOK; KNIGHT; BISHOP; QUEEN; KING; BISHOP; KNIGHT; ROOK].

Definition pawn_rank (c : Color) : list (option Piece) :=
  repeat (Some (mkPiece PAWN c)) 8.

(** [chess.Board()]: the starting position. *)
Definition starting_board : Board :=
  mkBoard
    (mkState (back_rank WHITE ++ pawn_rank WHITE ++ repeat None 32
              ++ pawn_rank BLACK ++ back_rank BLACK)
             WHITE [0; 7; 56; 63] None 0 1)
    [].

(** The board after playing the moves, given in UCI notation, from the
    starting position. *)
Definition after (ucis : list string) : Board :=
  fold_left (fun b u => push b (from_uci u)) ucis starting_board.

(** A board set up from a list of placed pieces, without castling rights
    and with an empty move stack. *)
Definition set_up (placed : list (Square * Piece)) (to_move : Color) : Board :=
  mkBoard
    (mkState (fold_left (fun sqs '(sq, p) => set_sq sq (Some p) sqs)
                        placed (repeat None 64))
             to_move [] None 0 1)
    [].

(** The piece a move takes off the board: the piece on the destination
    square, or the pawn passed by for an en passant capture. *)
Definition captured_piece (b : Board) (m : Move) : option Piece :=
  let s := state b in
  if ep_capture s (from_square m) (to_square m)
  then at_sq (squares s)
             (if side s then to_square m - 8 else to_square m + 8)
  else at_sq (squares s) (to_square m).

Definition white (pt : PieceType) : Piece := mkPiece pt WHITE.
Definition black (pt : PieceType) : Piece := mkPiece pt BLACK.

(** 1. f3 e5 2. g4 Qh4 mate: White is mated. *)
Definition fools_mate : Board :=
  after ["f2f3"; "e7e5"; "g2g4"; "d8h4"]%string.

(** 1. e4 e5 2. Qh5 Nc6 3. Bc4 Nf6 4. Qxf7 mate: Black is mated. *)
Definition scholars_mate : Board :=
  after ["e2e4"; "e7e5"; "d1h5"; "b8c6"; "f1c4"; "g8f6"; "h5f7"]%string.

(** White king a1, black queen b3, black king h8, White to move:
    stalemate. *)
Definition stalemate_board : Board :=
  set_up [(0, white KING); (17, black QUEEN); (63, black KING)] WHITE.

(** The two kings alone. *)
Definition bare_kings : Board :=
  set_up [(0, white KING); (63, black KING)] WHITE.

(** White king a1, black rook b8, black king h8, White to move: the king
    has the one move to a2. *)
Definition one_move_board : Board :=
  set_up [(0, white KING); (57, black ROOK); (63, black KING)] WHITE.

(** 1. e4 a6 2. e5 d5: the white pawn on e5 may take the black pawn on d5
    en passant, moving to the empty square d6. *)
Definition en_passant_board : Board :=
  after ["e2e4"; "a7a6"; "e4e5"; "d7d5"]%string.

(** 1. e4 d5: the white pawn on e4 may take the black pawn on d5. *)
Definition capture_board : Board := after ["e2e4"; "d7d5"]%string.

(** White king e1, white pawn e2, black king e8, black knight b4, White to
    move: a small position to search. *)
Definition small_board : Board :=
  set_up [(4, white KING); (12, white PAWN); (60, black KING);
          (25, black KNIGHT)] WHITE.

(** After 1. e4, Black to move; and its mirror image, after
    1. Nf3 e6 2. Ng1 e5, White to move. *)
Definition kings_pawn : Board := after ["e2e4"]%string.
Definition kings_pawn_mirrored : Board :=
  after ["g1f3"; "e7e6"; "f3g1"; "e6e5"]%string.

(** The mirror image of [fools_mate]: 1. e3 f6 2. e4 g5 3. Qh5 mate. *)
Definition fools_mate_mirrored : Board :=
  after ["e2e3"; "f7f6"; "e3e4"; "g7g5"; "d1h5"]%string.

(** The second board is the colour-mirrored counterpart of the first, as
    a test. *)
Definition mirroredb (b b' : Board) : bool :=
  forallb (fun sq =>
             opt_eqb Piece_eqb (piece_at b' sq)
                     (mirror_piece (piece_at b (square_mirror sq))))
          SQUARES
  && Bool.eqb (turn b') (negb (turn b))
  && Bool.eqb (is_checkmate b') (is_checkmate b)
  && Bool.eqb (is_stalemate b') (is_stalemate b)
  && Bool.eqb (is_insufficient_material b') (is_insufficient_material b).

(** White king e1, black pawn e2, black king e8, White to move: the king
    may take the pawn. *)
Definition king_capture_board : Board :=
  set_up [(4, white KING); (12, black PAWN); (60, black KING)] WHITE.

(** White king e1, white pawn a7, black king h8, White to move: the pawn
    may promote. *)
Definition promotion_board : Board :=
  set_up [(4, white KING); (48, white PAWN); (63, black KING)] WHITE.

(** White king e1, white rook a1, black king h8, White to move: the rook
    may give check on a8. *)
Definition rook_board : Board :=
  set_up [(4, white KING); (0, white ROOK); (63, black KING)] WHITE.

(** The starting position reached again, after 1. Nf3 Nf6 2. Ng1 Ng8. *)
Definition starting_board_again : Board :=
  after ["g1f3"; "g8f6"; "f3g1"; "f6g8"]%string.

(** A world to start from, a clock that stands still and a clock that
    jumps ten seconds at every reading. *)
Definition fresh_world (b : Board) : World := mkWorld b 0 0.
Definition still_clock (k : nat) : Q := 0%Q.
Definition racing_clock (k : nat) : Q := inject_Z (10 * Z.of_nat k).

End PyChess.


(** ** What the search computes, as functions of the position

    When the rules engine restores the board on [pop], the orderer and the
    search leave the board as they found it, and their results are these
    functions of the position they were called on. *)
Section Values.

Context {Board : Type} {R : Rules Board}.

(** The score [order_moves_fast] gives a move. *)
Definition move_score (board : Board) (move : Move) : Z :=
  let score := capture_score board move in
  let score :=
    match promotion move with
    | Some _ => (score + 900)%Z
    | None => score
    end in
  if is_check (push board move) then (score + 50)%Z else score.

Definition ordered_moves (board : Board) (moves : list Move) : list Move :=
  sort_reverse (move_score board) moves.

Fixpoint max_value (search : Board -> score -> score -> score) (board : Board)
    (legal_moves : list Move) (alpha beta max_eval : score) : score :=
  match legal_moves with
  | [] => max_eval
  | move :: rest =>
      let eval_score := search (push board move) alpha beta in
      let max_eval := smax max_eval eval_score in
      let alpha := smax alpha eval_score in
      if sle beta alpha then max_eval
      else max_value search board rest alpha beta max_eval
  end.

Fixpoint min_value (search : Board -> score -> score -> score) (board : Board)
    (legal_moves : list Move) (alpha beta min_eval : score) : score :=
  match legal_moves with
  | [] => min_eval
  | move :: rest =>
      let eval_score := search (push board move) alpha beta in
      let min_eval := smin min_eval eval_score in
      let beta := smin beta eval_score in
      if sle beta alpha then min_eval
      else min_value search board rest alpha beta min_eval
  end.

Fixpoint alpha_beta_value (depth : nat) (board : Board) (alpha beta : score)
    (maximizing_player : bool) : score :=
  match depth with
  | O => evaluate_board board
  | S depth' =>
      if is_game_over board then
        if is_checkmate board then
          if maximizing_player then Zscore (-100000) else Zscore 100000
        else Zscore 0
      else
        let legal_moves := ordered_moves board (legal_moves board) in
        if maximizing_player then
          max_value (fun b alpha beta => alpha_beta_value depth' b alpha beta false)
                    board legal_moves alpha beta NegInf
        else
          min_value (fun b alpha beta => alpha_beta_value depth' b alpha beta true)
                    board legal_moves alpha beta PosInf
  end.

(** The world after [n] more nodes have been counted. *)
Definition counted (n : Z) (w : @World Board) : @World Board :=
  mkWorld (board w) (nodes_searched w + n) (clock_reads w).

(** What a result [r] of a search with window [(alpha, beta)] says about
    the exact minimax value [v]: at or below [alpha] it is an upper bound,
    at or above [beta] a lower bound, strictly inside it is the value. *)
Definition within_window (alpha beta r v : score) : Prop :=
  (score_le r alpha -> score_le v r)
  /\ (score_le beta r -> score_le r v)
  /\ (score_lt alpha r -> score_lt r beta -> r = v).

(** The states of the driver's loops: a best move, if there is one, is a
    move of the list; a result is a move of the list. *)
Definition of_list (moves : list Move) (best : option Move) : Prop :=
  forall move, best = Some move -> In move moves.

Definition a_move (moves : list Move) (result : option Move) : Prop :=
  exists move, result = Some move /\ In move moves.

(** [x] comes before [y] in the list. *)
Definition precedes {A} (x y : A) (l : list A) : Prop :=
  exists l1 l2 l3, l = l1 ++ x :: l2 ++ y :: l3.

(** A search procedure runs as a value function says: from any world it
    returns that value for the board of the world, restores the board,
    and counts at least one node. *)
Definition runs_as (search : score -> score -> M score)
    (value : Board -> score -> score -> score) : Prop :=
  forall (w : World) (alpha beta : score),
    exists n : Z, (0 < n)%Z
      /\ search alpha beta w = (value (board w) alpha beta, counted n w).

End Values.


(** ** The size of the search tree and the choice at the root *)
Section Iterations.

Context {Board : Type} {R : Rules Board}.

(** The number of positions of the exhaustive search to [depth]. *)
Fixpoint tree_size (depth : nat) (board : Board) : Z :=
  match depth with
  | O => 1
  | S depth' =>
      if is_game_over board then 1
      else 1 + total (map (fun move => tree_size depth' (push board move))
                          (legal_moves board))
  end%Z.

(** The exhaustive value of a root move in the iteration [depth] of the
    driver. *)
Definition root_value (depth : nat) (board : Board) (move : Move) : score :=
  minimax_exhaustive (depth - 1) (push board move) false.

(** The choice of the loop over the root moves: the first move whose
    value is greater than the values of the moves before it and not less
    than the values of the moves after it. *)
Fixpoint first_best (value : Move -> score) (moves : list Move)
    (current_best : option Move) (current_best_value : score)
    : option Move * score :=
  match moves with
  | [] => (current_best, current_best_value)
  | move :: rest =>
      if slt current_best_value (value move)
      then first_best value rest (Some move) (value move)
      else first_best value rest current_best current_best_value
  end.

(** A position without legal moves is a finished game. *)
Definition NoMovesLaw : Prop :=
  forall b : Board, legal_moves b = [] -> is_game_over b = true.

(** The clock never shows more than the limit, nor more than half the
    limit, since [start_time]. *)
Definition in_time (clock : nat -> Q) (start_time time_limit : Q) : Prop :=
  forall k : nat,
    Qle_bool (clock k - start_time) time_limit = true
    /\ Qle_bool (clock k - start_time) (time_limit / 2) = true.

End Iterations.

(** * Properties *)

(** ** The order on scores *)

Lemma sle_refl (a : score) : sle a a = true.
Proof.
  destruct a as [|x|]; simpl; trivial.
  apply Qle_bool_iff, Qle_refl.
Qed.

Lemma sle_trans (a b c : score) :
  sle a b = true -> sle b c = true -> sle a c = true.
Proof.
  destruct a as [|x|], b as [|y|], c as [|z|]; simpl; trivial;
    try discriminate.
  rewrite !Qle_bool_iff. apply Qle_trans.
Qed.

Lemma sle_antisym (a b : score) :
  sle a b = true -> sle b a = true -> a = b.
Proof.
  destruct a as [|x|], b as [|y|]; simpl; trivial; try discriminate.
  rewrite !Qle_bool_iff. intros Hxy Hyx.
  f_equal. apply Qc_is_canon, Qle_antisym; assumption.
Qed.

Lemma sle_total (a b : score) : sle a b = true \/ sle b a = true.
Proof.
  destruct a as [|x|], b as [|y|]; simpl; auto.
  rewrite !Qle_bool_iff.
  destruct (Qlt_le_dec x y) as [H|H]; [left; apply Qlt_le_weak|right];
    assumption.
Qed.

Module ScoreOrder <: TotalOrder.
Include ScoreRelations.

Lemma eq_equiv : Equivalence eq.
Proof. exact eq_equivalence. Qed.

Lemma lt_strorder : StrictOrder lt.
Proof.
  split.
  - intros a [H]. rewrite sle_refl in H. discriminate.
  - intros a b c [Hab] [Hbc]. split.
    destruct (sle c a) eqn:Hca; trivial.
    destruct (sle_total a b) as [H|H]; [|congruence].
    rewrite (sle_trans _ _ _ Hca H) in Hbc. discriminate.
Qed.

Lemma lt_compat : Proper (eq ==> eq ==> iff) lt.
Proof. intros a a' Ha b b' Hb. unfold eq in *. subst. reflexivity. Qed.

Lemma le_lteq (a b : score) : le a b <-> lt a b \/ eq a b.
Proof.
  unfold eq. split.
  - intros [H]. destruct (sle b a) eqn:Hba.
    + right. apply sle_antisym; assumption.
    + left. split. assumption.
  - intros [[H]| ->]; split; [|apply sle_refl].
    destruct (sle_total a b) as [H'|H']; congruence.
Qed.

Lemma lt_total (a b : score) : lt a b \/ eq a b \/ lt b a.
Proof.
  unfold eq.
  destruct (sle b a) eqn:Hba; [|left; split; assumption].
  destruct (sle a b) eqn:Hab; [|right; right; split; assumption].
  right; left. apply sle_antisym; assumption.
Qed.
End ScoreOrder.

Module ScoreTac := MakeOrderTac ScoreOrder ScoreOrder.

Lemma score_le_or_lt (a b : score) : score_le a b \/ score_lt b a.
Proof. destruct (sle a b) eqn:E; [left|right]; split; exact E. Qed.

Lemma smax_cases (a b : score) :
  (score_lt a b /\ smax a b = b) \/ (score_le b a /\ smax a b = a).
Proof.
  unfold smax, slt. destruct (sle b a) eqn:E; simpl.
  - right. split; [split; exact E|reflexivity].
  - left. split; [split; exact E|reflexivity].
Qed.

Lemma smin_cases (a b : score) :
  (score_lt b a /\ smin a b = b) \/ (score_le a b /\ smin a b = a).
Proof.
  unfold smin, slt. destruct (sle a b) eqn:E; simpl.
  - right. split; [split; exact E|reflexivity].
  - left. split; [split; exact E|reflexivity].
Qed.

Lemma NegInf_least (a : score) : score_le NegInf a.
Proof. split. reflexivity. Qed.

Lemma PosInf_greatest (a : score) : score_le a PosInf.
Proof. split. destruct a; reflexivity. Qed.

(** Replace every [smax] and [smin] in sight by its value, in each of
    its two cases. *)
Ltac max_case a b :=
  let H := fresh "Hmax" in
  let m := fresh "m" in
  pose proof (smax_cases a b) as H;
  set (m := smax a b) in *; clearbody m;
  destruct H as [[H ?]|[H ?]]; subst m.

Ltac min_case a b :=
  let H := fresh "Hmin" in
  let m := fresh "m" in
  pose proof (smin_cases a b) as H;
  set (m := smin a b) in *; clearbody m;
  destruct H as [[H ?]|[H ?]]; subst m.

Ltac minmax_cases :=
  repeat match goal with
  | |- context [smax ?a ?b] => max_case a b
  | H0 : context [smax ?a ?b] |- _ => max_case a b
  | |- context [smin ?a ?b] => min_case a b
  | H0 : context [smin ?a ?b] |- _ => min_case a b
  end.

Lemma fold_smax_swap (l : list score) (a x y : score) :
  fold_left smax (x :: y :: l) a = fold_left smax (y :: x :: l) a.
Proof. simpl. f_equal. minmax_cases; ScoreTac.order. Qed.

Lemma fold_smin_swap (l : list score) (a x y : score) :
  fold_left smin (x :: y :: l) a = fold_left smin (y :: x :: l) a.
Proof. simpl. f_equal. minmax_cases; ScoreTac.order. Qed.

Lemma fold_smax_perm (l l' : list score) :
  Permutation l l' -> forall a, fold_left smax l a = fold_left smax l' a.
Proof.
  induction 1 as [|x l l' _ IH|x y l|l l' l'' _ IH _ IH']; intros a.
  - reflexivity.
  - simpl. apply IH.
  - apply fold_smax_swap.
  - rewrite IH. apply IH'.
Qed.

Lemma fold_smin_perm (l l' : list score) :
  Permutation l l' -> forall a, fold_left smin l a = fold_left smin l' a.
Proof.
  induction 1 as [|x l l' _ IH|x y l|l l' l'' _ IH _ IH']; intros a.
  - reflexivity.
  - simpl. apply IH.
  - apply fold_smin_swap.
  - rewrite IH. apply IH'.
Qed.

Lemma fold_smax_ge (l : list score) (a : score) :
  score_le a (fold_left smax l a).
Proof.
  revert a. induction l as [|x l IH]; intros a; simpl.
  - ScoreTac.order.
  - specialize (IH (smax a x)). minmax_cases; ScoreTac.order.
Qed.

Lemma fold_smin_le (l : list score) (a : score) :
  score_le (fold_left smin l a) a.
Proof.
  revert a. induction l as [|x l IH]; intros a; simpl.
  - ScoreTac.order.
  - specialize (IH (smin a x)). minmax_cases; ScoreTac.order.
Qed.

(** ** The evaluator and the base cases of the search *)

Section BotProperties.

Context {Board : Type} {R : Rules Board}.

Lemma stalemate_not_checkmate (b : Board) :
  is_stalemate b = true -> is_checkmate b = false.
Proof.
  unfold is_stalemate, is_checkmate.
  destruct (is_check b); simpl; [discriminate|reflexivity].
Qed.

(** C5.  On a checkmate position the evaluator returns -100000 when White
    is to move and +100000 when Black is to move; on a stalemate position
    it returns 0, and so it does on a position of insufficient material
    (which is not a checkmate position: that test comes first).  These
    values are returned as they are, not divided by 100. *)
Theorem evaluate_board_terminal (b : Board) :
  (is_checkmate b = true ->
   evaluate_board b = if turn b then Zscore (-100000) else Zscore 100000)
  /\ (is_stalemate b = true -> evaluate_board b = Zscore 0)
  /\ (is_checkmate b = false -> is_insufficient_material b = true ->
      evaluate_board b = Zscore 0).
Proof.
  unfold evaluate_board. repeat split.
  - intros ->. reflexivity.
  - intros H. rewrite (stalemate_not_checkmate _ H), H. reflexivity.
  - intros -> ->. rewrite orb_true_r. reflexivity.
Qed.

(** C10.  At depth 0 the search returns the static evaluation of the
    position, whatever [maximizing_player] is and whether or not the game
    is over there, after counting the node; the search's own rule for
    finished games, with its sign chosen by [maximizing_player], is
    applied at positive depths. *)
Theorem minimax_depth_zero_is_evaluation (alpha beta : score)
    (maximizing_player : bool) (w : World) :
  minimax_alpha_beta 0 alpha beta maximizing_player w
  = (evaluate_board (board w),
     mkWorld (board w) (nodes_searched w + 1) (clock_reads w))
  /\ forall depth,
       is_game_over (board w) = true ->
       minimax_alpha_beta (S depth) alpha beta maximizing_player w
       = (if is_checkmate (board w)
          then if maximizing_player then Zscore (-100000) else Zscore 100000
          else Zscore 0,
          mkWorld (board w) (nodes_searched w + 1) (clock_reads w)).
Proof.
  split; [reflexivity|].
  intros depth H. simpl. unfold bind, count_node, get_board, ret. simpl.
  rewrite H. destruct (is_checkmate (board w)); reflexivity.
Qed.

(** C7.  With exactly one legal move the driver returns that move.  The
    world it leaves is the one it found, but for the one reading of the
    clock at the start: the board has not been touched (there was no
    [push], so no ordering and no search, whatever the rules engine does
    on [push] and [pop]), no node has been counted, and the outcome does
    not depend on the position's FEN, the key of the opening book. *)
Theorem single_legal_move_returned (clock : nat -> Q) (max_depth : nat)
    (time_limit : Q) (w : World) (move : Move) :
  legal_moves (board w) = [move] ->
  get_best_move_fast clock max_depth time_limit w
  = (Some move, mkWorld (board w) (nodes_searched w) (S (clock_reads w))).
Proof.
  intros H. unfold get_best_move_fast, bind, time_time, get_board, ret.
  simpl. rewrite H. reflexivity.
Qed.

(** C2 (amended).  Before the promotion and check bonuses, the score of a
    capture whose destination square holds a piece is the value of that
    piece minus the value of the moving piece plus 1000; the score of a
    capture whose destination square is empty (an en passant capture) is
    0, and so is the score of a move that is not a capture. *)
Theorem capture_score_by_destination (b : Board) (move : Move) :
  (forall victim aggressor,
     is_capture b move = true ->
     piece_at b (to_square move) = Some victim ->
     piece_at b (from_square move) = Some aggressor ->
     capture_score b move
     = (piece_values (piece_type victim)
        - piece_values (piece_type aggressor) + 1000)%Z)
  /\ (is_capture b move = true -> piece_at b (to_square move) = None ->
      capture_score b move = 0%Z)
  /\ (is_capture b move = false -> capture_score b move = 0%Z).
Proof.
  unfold capture_score. repeat split.
  - intros victim aggressor -> -> ->. reflexivity.
  - intros -> ->. reflexivity.
  - intros ->. reflexivity.
Qed.

(** ** Sorting *)

Section Sorting.

Context {A : Type} (key : A -> Z).

Lemma insert_desc_perm (x : A) (l : list A) :
  Permutation (x :: l) (insert_desc key x l).
Proof.
  induction l as [|y l IH]; simpl; [reflexivity|].
  destruct (key x <? key y)%Z; [|reflexivity].
  etransitivity; [apply perm_swap|]. apply perm_skip, IH.
Qed.

Lemma sort_reverse_perm (l : list A) : Permutation l (sort_reverse key l).
Proof.
  induction l as [|x l IH]; simpl; [reflexivity|].
  etransitivity; [apply perm_skip, IH|]. apply insert_desc_perm.
Qed.

Lemma insert_desc_sorted (x : A) (l : list A) :
  StronglySorted (key_ge key) l -> StronglySorted (key_ge key) (insert_desc key x l).
Proof.
  induction 1 as [|y l Hl IH Hy]; simpl.
  - constructor; constructor.
  - destruct (key x <? key y)%Z eqn:E.
    + apply Z.ltb_lt in E. constructor; [exact IH|].
      eapply Permutation_Forall; [apply insert_desc_perm|].
      constructor; [unfold key_ge; lia|exact Hy].
    + apply Z.ltb_ge in E. constructor; [constructor; assumption|].
      constructor; [exact E|].
      eapply Forall_impl; [|exact Hy]. unfold key_ge. intros; lia.
Qed.

Lemma sort_reverse_sorted (l : list A) :
  StronglySorted (key_ge key) (sort_reverse key l).
Proof.
  induction l as [|x l IH]; simpl; [constructor|].
  apply insert_desc_sorted, IH.
Qed.

Lemma insert_desc_stable (k : Z) (x : A) (l : list A) :
  filter (fun y => (key y =? k)%Z) (insert_desc key x l)
  = filter (fun y => (key y =? k)%Z) (x :: l).
Proof.
  induction l as [|y l IH]; simpl; [reflexivity|].
  destruct (key x <? key y)%Z eqn:E; [|reflexivity].
  apply Z.ltb_lt in E. simpl in *. rewrite IH.
  destruct (key x =? k)%Z eqn:Ex, (key y =? k)%Z eqn:Ey; trivial.
  apply Z.eqb_eq in Ex, Ey. lia.
Qed.

Lemma sort_reverse_stable (k : Z) (l : list A) :
  filter (fun y => (key y =? k)%Z) (sort_reverse key l)
  = filter (fun y => (key y =? k)%Z) l.
Proof.
  induction l as [|x l IH]; simpl; [reflexivity|].
  rewrite insert_desc_stable. simpl. rewrite IH. reflexivity.
Qed.

End Sorting.

(** Sorting pairs by their first component sorts the second components by
    the key they were paired with. *)
Lemma insert_desc_pairs {A} (key : A -> Z) (x : A) (l : list A) :
  insert_desc fst (key x, x) (map (fun y => (key y, y)) l)
  = map (fun y => (key y, y)) (insert_desc key x l).
Proof.
  induction l as [|y l IH]; simpl; [reflexivity|].
  destruct (key x <? key y)%Z; simpl; [rewrite IH|]; reflexivity.
Qed.

Lemma sort_reverse_pairs {A} (key : A -> Z) (l : list A) :
  map snd (sort_reverse fst (map (fun x => (key x, x)) l))
  = sort_reverse key l.
Proof.
  assert (H : sort_reverse fst (map (fun x => (key x, x)) l)
              = map (fun x => (key x, x)) (sort_reverse key l)).
  { induction l as [|x l IH]; simpl; [reflexivity|].
    rewrite IH. apply insert_desc_pairs. }
  rewrite H, map_map. simpl. apply map_id.
Qed.

(** ** Alpha-beta against exhaustive minimax *)

(** Split on where a result lies in its window and keep what the window
    says there. *)
Ltac window_cases H :=
  let A := fresh "A" in let B := fresh "B" in let C := fresh "C" in
  destruct H as (A & B & C);
  match type of A with
  | score_le ?r ?alpha -> _ =>
      match type of B with
      | score_le ?beta _ -> _ =>
          destruct (score_le_or_lt r alpha) as [?|?];
          [specialize (A ltac:(assumption)); clear B C
          |clear A;
           destruct (score_le_or_lt beta r) as [?|?];
           [specialize (B ltac:(assumption)); clear C
           |clear B;
            specialize (C ltac:(assumption) ltac:(assumption))]]
      end
  end.

Ltac by_order := minmax_cases; ScoreTac.order.

Section Window.

Variable search : Board -> score -> score -> score.
Variable exact : Board -> score.
Variable b : Board.
Variables alpha0 beta0 : score.

Lemma max_value_window
    (Hc : forall move alpha, score_lt alpha beta0 ->
          within_window alpha beta0 (search (push b move) alpha beta0)
                        (exact (push b move)))
    (moves : list Move) :
  forall alpha max_eval V : score,
    score_lt alpha beta0 ->
    alpha = smax alpha0 max_eval ->
    (score_le max_eval alpha0 -> score_le V max_eval) ->
    (score_lt alpha0 max_eval -> max_eval = V) ->
    within_window alpha0 beta0
      (max_value search b moves alpha beta0 max_eval)
      (fold_left smax (map (fun move => exact (push b move)) moves) V).
Proof.
  induction moves as [|move rest IH]; intros alpha max_eval V Hab Ha H1 H2.
  - simpl. subst alpha.
    destruct (score_le_or_lt max_eval alpha0) as [H|H];
      [specialize (H1 H); clear H2|specialize (H2 H); clear H1];
      repeat split; intros; by_order.
  - simpl.
    pose proof (Hc move alpha Hab) as Hw.
    pose proof (fold_smax_ge
                  (map (fun move => exact (push b move)) rest)
                  (smax V (exact (push b move)))) as Hge.
    set (e := search (push b move) alpha beta0) in *.
    set (v := exact (push b move)) in *.
    destruct (sle beta0 (smax alpha e)) eqn:T.
    + apply score_le_intro in T. clear IH. subst alpha.
      set (rest_value := fold_left smax _ _) in *. clearbody rest_value e v.
      window_cases Hw;
        (destruct (score_le_or_lt max_eval alpha0) as [Hm|Hm];
         [specialize (H1 Hm); clear H2|specialize (H2 Hm); clear H1]);
        repeat split; intros; by_order.
    + apply score_lt_intro in T. clear Hge.
      apply IH; clear IH; clearbody e v; subst alpha;
        try (intros; window_cases Hw;
             (destruct (score_le_or_lt max_eval alpha0) as [Hm|Hm];
              [specialize (H1 Hm); clear H2|specialize (H2 Hm); clear H1]);
             by_order).
Qed.

Lemma min_value_window
    (Hc : forall move beta, score_lt alpha0 beta ->
          within_window alpha0 beta (search (push b move) alpha0 beta)
                        (exact (push b move)))
    (moves : list Move) :
  forall beta min_eval V : score,
    score_lt alpha0 beta ->
    beta = smin beta0 min_eval ->
    (score_le beta0 min_eval -> score_le min_eval V) ->
    (score_lt min_eval beta0 -> min_eval = V) ->
    within_window alpha0 beta0
      (min_value search b moves alpha0 beta min_eval)
      (fold_left smin (map (fun move => exact (push b move)) moves) V).
Proof.
  induction moves as [|move rest IH]; intros beta min_eval V Hab Hb H1 H2.
  - simpl. subst beta.
    destruct (score_le_or_lt beta0 min_eval) as [Hm|Hm];
      [specialize (H1 Hm); clear H2|specialize (H2 Hm); clear H1];
      repeat split; intros; by_order.
  - simpl.
    pose proof (Hc move beta Hab) as Hw.
    pose proof (fold_smin_le
                  (map (fun move => exact (push b move)) rest)
                  (smin V (exact (push b move)))) as Hle.
    set (e := search (push b move) alpha0 beta) in *.
    set (v := exact (push b move)) in *.
    destruct (sle (smin beta e) alpha0) eqn:T.
    + apply score_le_intro in T. clear IH. subst beta.
      set (rest_value := fold_left smin _ _) in *. clearbody rest_value e v.
      window_cases Hw;
        (destruct (score_le_or_lt beta0 min_eval) as [Hm|Hm];
         [specialize (H1 Hm); clear H2|specialize (H2 Hm); clear H1]);
        repeat split; intros; by_order.
    + apply score_lt_intro in T. clear Hle.
      apply IH; clear IH; clearbody e v; subst beta;
        try (intros; window_cases Hw;
             (destruct (score_le_or_lt beta0 min_eval) as [Hm|Hm];
              [specialize (H1 Hm); clear H2|specialize (H2 Hm); clear H1]);
             by_order).
Qed.

End Window.

(** The search with a window against the exhaustive search. *)
Lemma alpha_beta_within_window (depth : nat) :
  forall (b : Board) (maximizing_player : bool) (alpha beta : score),
    score_lt alpha beta ->
    within_window alpha beta
      (alpha_beta_value depth b alpha beta maximizing_player)
      (minimax_exhaustive depth b maximizing_player).
Proof.
  assert (Hleaf : forall alpha beta r, within_window alpha beta r r).
  { intros alpha beta r. repeat split; intros; ScoreTac.order. }
  induction depth as [|depth IH]; intros b maximizing_player alpha beta Hab.
  - apply Hleaf.
  - simpl. destruct (is_game_over b); [apply Hleaf|].
    assert (Hp : Permutation
                   (map (fun move => minimax_exhaustive depth (push b move)
                                       (negb maximizing_player))
                        (ordered_moves b (legal_moves b)))
                   (map (fun move => minimax_exhaustive depth (push b move)
                                       (negb maximizing_player))
                        (legal_moves b))).
    { apply Permutation_map, Permutation_sym, sort_reverse_perm. }
    destruct maximizing_player; simpl in *.
    + rewrite <- (fold_smax_perm Hp).
      apply max_value_window with
        (exact := fun b => minimax_exhaustive depth b false);
        auto; intros; ScoreTac.order.
    + rewrite <- (fold_smin_perm Hp).
      apply min_value_window with
        (exact := fun b => minimax_exhaustive depth b true);
        auto; intros; try ScoreTac.order.
      unfold smin, slt. destruct beta; reflexivity.
Qed.


(** With the full window the search computes the exhaustive value. *)
Lemma full_window_value (depth : nat) (b : Board) (maximizing_player : bool) :
  alpha_beta_value depth b NegInf PosInf maximizing_player
  = minimax_exhaustive depth b maximizing_player.
Proof.
  assert (Hw : score_lt NegInf PosInf) by (split; reflexivity).
  apply (alpha_beta_within_window depth b maximizing_player) in Hw.
  set (r := alpha_beta_value _ _ _ _ _) in *.
  set (v := minimax_exhaustive _ _ _) in *.
  pose proof (NegInf_least r). pose proof (NegInf_least v).
  pose proof (PosInf_greatest r). pose proof (PosInf_greatest v).
  clearbody r v. window_cases Hw; ScoreTac.order.
Qed.

(** ** The move orderer *)

Lemma World_eta (w : @World Board) :
  mkWorld (board w) (nodes_searched w) (clock_reads w) = w.
Proof. destruct w; reflexivity. Qed.

(** Whatever [push] and [pop] do, the moves come out as they went in,
    each with a score. *)
Lemma score_moves_moves (moves : list Move) (w : World) :
  map snd (fst (score_moves moves w)) = moves.
Proof.
  revert w. induction moves as [|move rest IH]; intros w; [reflexivity|].
  simpl. unfold bind.
  destruct (score_move move w) as [s w1].
  specialize (IH w1). destruct (score_moves rest w1) as [ms w2].
  simpl in *. rewrite IH. reflexivity.
Qed.

Lemma order_moves_fast_perm (moves : list Move) (w : World) :
  Permutation moves (fst (order_moves_fast moves w)).
Proof.
  unfold order_moves_fast, bind, ret.
  pose proof (score_moves_moves moves w) as H.
  destruct (score_moves moves w) as [ms w1]. simpl in *.
  rewrite <- H at 1. apply Permutation_map, sort_reverse_perm.
Qed.

Section StackDiscipline.

Hypothesis push_pop : PushPopLaw R.

Lemma score_move_run (move : Move) (w : World) :
  score_move move w = (move_score (board w) move, w).
Proof.
  unfold score_move, bind, get_board, board_push, board_pop, ret, move_score.
  simpl. rewrite push_pop, World_eta. reflexivity.
Qed.

Lemma score_moves_run (moves : list Move) (w : World) :
  score_moves moves w
  = (map (fun move => (move_score (board w) move, move)) moves, w).
Proof.
  induction moves as [|move rest IH]; [reflexivity|].
  simpl. unfold bind. rewrite score_move_run, IH. reflexivity.
Qed.

Lemma order_moves_fast_run (moves : list Move) (w : World) :
  order_moves_fast moves w = (ordered_moves (board w) moves, w).
Proof.
  unfold order_moves_fast, bind, ret. rewrite score_moves_run.
  unfold ordered_moves. rewrite sort_reverse_pairs. reflexivity.
Qed.

(** C6.  The orderer returns a permutation of its input, in descending
    order of the scores it computed, and moves of equal score keep their
    input order: for each score, the moves of that score are the same
    list before and after. *)
Theorem order_moves_fast_stable_sort (moves : list Move) (w : World) :
  let ordered := fst (order_moves_fast moves w) in
  let score := move_score (board w) in
  Permutation moves ordered
  /\ StronglySorted (fun m1 m2 => (score m2 <= score m1)%Z) ordered
  /\ forall s : Z,
       filter (fun m => (score m =? s)%Z) ordered
       = filter (fun m => (score m =? s)%Z) moves.
Proof.
  simpl. rewrite order_moves_fast_run. simpl. unfold ordered_moves.
  split; [apply sort_reverse_perm|].
  split; [apply sort_reverse_sorted|].
  intros s. apply sort_reverse_stable.
Qed.

(** *** The search runs as [alpha_beta_value] says *)

Lemma counted_counted (n n' : Z) (w : @World Board) :
  counted n' (counted n w) = counted (n + n') w.
Proof. unfold counted. simpl. f_equal. lia. Qed.

Lemma max_loop_run search value (Hs : runs_as search value)
    (moves : list Move) :
  forall (w : World) (alpha beta max_eval : score),
    exists n : Z, (0 <= n)%Z
      /\ max_loop search moves alpha beta max_eval w
         = (max_value value (board w) moves alpha beta max_eval, counted n w).
Proof.
  induction moves as [|move rest IH]; intros w alpha beta max_eval.
  - exists 0%Z. split; [lia|]. simpl. unfold ret, counted.
    rewrite Z.add_0_r, World_eta. reflexivity.
  - simpl. unfold bind, board_push, board_pop.
    destruct (Hs (mkWorld (push (board w) move) (nodes_searched w)
                          (clock_reads w)) alpha beta) as (n & Hn & ->).
    simpl. rewrite push_pop.
    destruct (sle beta (smax alpha (value (push (board w) move) alpha beta))).
    + exists n. split; [lia|]. reflexivity.
    + destruct (IH (counted n w) (smax alpha (value (push (board w) move) alpha beta))
                   beta (smax max_eval (value (push (board w) move) alpha beta)))
        as (n' & Hn' & E).
      exists (n + n')%Z. split; [lia|].
      unfold counted at 1 in E. simpl in E.
      unfold counted at 1. simpl. rewrite E, counted_counted. reflexivity.
Qed.

Lemma min_loop_run search value (Hs : runs_as search value)
    (moves : list Move) :
  forall (w : World) (alpha beta min_eval : score),
    exists n : Z, (0 <= n)%Z
      /\ min_loop search moves alpha beta min_eval w
         = (min_value value (board w) moves alpha beta min_eval, counted n w).
Proof.
  induction moves as [|move rest IH]; intros w alpha beta min_eval.
  - exists 0%Z. split; [lia|]. simpl. unfold ret, counted.
    rewrite Z.add_0_r, World_eta. reflexivity.
  - simpl. unfold bind, board_push, board_pop.
    destruct (Hs (mkWorld (push (board w) move) (nodes_searched w)
                          (clock_reads w)) alpha beta) as (n & Hn & ->).
    simpl. rewrite push_pop.
    destruct (sle (smin beta (value (push (board w) move) alpha beta)) alpha).
    + exists n. split; [lia|]. reflexivity.
    + destruct (IH (counted n w) alpha
                   (smin beta (value (push (board w) move) alpha beta))
                   (smin min_eval (value (push (board w) move) alpha beta)))
        as (n' & Hn' & E).
      exists (n + n')%Z. split; [lia|].
      unfold counted at 1 in E. simpl in E.
      unfold counted at 1. simpl. rewrite E, counted_counted. reflexivity.
Qed.

Lemma minimax_alpha_beta_step (depth : nat) (alpha beta : score)
    (maximizing_player : bool) (w : World) :
  minimax_alpha_beta (S depth) alpha beta maximizing_player w
  = let w1 := mkWorld (board w) (nodes_searched w + 1) (clock_reads w) in
    if is_game_over (board w) then
      (if is_checkmate (board w)
       then if maximizing_player then Zscore (-100000) else Zscore 100000
       else Zscore 0, w1)
    else
      bind (order_moves_fast (legal_moves (board w)))
           (fun legal_moves =>
              if maximizing_player then
                max_loop (fun alpha beta =>
                            minimax_alpha_beta depth alpha beta false)
                         legal_moves alpha beta NegInf
              else
                min_loop (fun alpha beta =>
                            minimax_alpha_beta depth alpha beta true)
                         legal_moves alpha beta PosInf) w1.
Proof.
  simpl. unfold bind at 1 2, count_node, get_board. simpl.
  destruct (is_game_over (board w)); [|reflexivity].
  destruct (is_checkmate (board w)); reflexivity.
Qed.

Lemma minimax_alpha_beta_run (depth : nat) (maximizing_player : bool) :
  runs_as (fun alpha beta =>
             minimax_alpha_beta depth alpha beta maximizing_player)
          (fun b alpha beta =>
             alpha_beta_value depth b alpha beta maximizing_player).
Proof.
  revert maximizing_player.
  induction depth as [|depth IH]; intros maximizing_player w alpha beta.
  - exists 1%Z. split; [lia|]. reflexivity.
  - rewrite minimax_alpha_beta_step. cbn [alpha_beta_value].
    destruct (is_game_over (board w)).
    + exists 1%Z. split; [lia|].
      destruct (is_checkmate (board w)); reflexivity.
    + unfold bind. rewrite order_moves_fast_run. cbn [board].
      destruct maximizing_player.
      * destruct (max_loop_run (IH false) (ordered_moves (board w) (legal_moves (board w)))
                    (mkWorld (board w) (nodes_searched w + 1) (clock_reads w))
                    alpha beta NegInf) as (n & Hn & E).
        exists (1 + n)%Z. split; [lia|].
        simpl in E. rewrite E. unfold counted.
        cbn [board nodes_searched clock_reads].
        rewrite Z.add_assoc. reflexivity.
      * destruct (min_loop_run (IH true) (ordered_moves (board w) (legal_moves (board w)))
                    (mkWorld (board w) (nodes_searched w + 1) (clock_reads w))
                    alpha beta PosInf) as (n & Hn & E).
        exists (1 + n)%Z. split; [lia|].
        simpl in E. rewrite E. unfold counted.
        cbn [board nodes_searched clock_reads].
        rewrite Z.add_assoc. reflexivity.
Qed.

(** C4.  After the orderer returns, and after the search returns from any
    depth and any window (also when a loop was left by the pruning
    [break]), the board is the board of before the call, and so is its
    serialization. *)
Theorem board_restored (moves : list Move) (depth : nat) (alpha beta : score)
    (maximizing_player : bool) (w : World) :
  let w1 := snd (order_moves_fast moves w) in
  let w2 := snd (minimax_alpha_beta depth alpha beta maximizing_player w) in
  (board w1 = board w /\ fen (board w1) = fen (board w))
  /\ (board w2 = board w /\ fen (board w2) = fen (board w)).
Proof.
  simpl. rewrite order_moves_fast_run.
  destruct (minimax_alpha_beta_run depth maximizing_player w alpha beta)
    as (n & _ & ->).
  simpl. auto.
Qed.

End StackDiscipline.

(** ** The driver *)

Lemma PieceType_eqb_eq (a b : PieceType) : PieceType_eqb a b = true -> a = b.
Proof. destruct a, b; simpl; congruence. Qed.

Lemma Move_eqb_eq (m n : Move) : Move_eqb m n = true -> m = n.
Proof.
  destruct m as [f t p], n as [f' t' p']. unfold Move_eqb. simpl.
  rewrite !andb_true_iff, !Nat.eqb_eq. intros [[-> ->] H]. f_equal.
  destruct p, p'; simpl in H; try discriminate; trivial.
  f_equal. apply PieceType_eqb_eq, H.
Qed.

(** A move found in the book is a legal move of the position. *)
Lemma get_opening_move_legal (b : Board) (move : Move) :
  get_opening_move b = Some move -> In move (legal_moves b).
Proof.
  unfold get_opening_move.
  destruct (dict_get opening_moves _) as [moves|]; [|discriminate].
  intros H. apply find_some in H. destruct H as [_ H].
  unfold is_legal in H. apply existsb_exists in H.
  destruct H as (m' & Hin & E). apply Move_eqb_eq in E. subst. exact Hin.
Qed.

Lemma is_legal_In (b : Board) (move : Move) :
  is_legal b move = true -> In move (legal_moves b).
Proof.
  unfold is_legal. intros H. apply existsb_exists in H.
  destruct H as (m' & Hin & E). apply Move_eqb_eq in E. subst. exact Hin.
Qed.

Section Driver.

Variable clock : nat -> Q.
Variables start_time time_limit : Q.
Variable ordered : list Move.
Hypothesis ordered_not_empty : ordered <> [].

Lemma best_or_first_a_move (best_move : option Move) :
  of_list ordered best_move -> a_move ordered (best_or_first best_move ordered).
Proof.
  intros H. unfold best_or_first.
  destruct (truthy best_move) eqn:E.
  - destruct best_move as [move|]; [|discriminate].
    exists move. split; [reflexivity|]. apply H. reflexivity.
  - destruct ordered as [|move rest]; [congruence|].
    exists move. simpl. auto.
Qed.

Lemma root_loop_moves (depth : nat) (best_move : option Move)
    (Hbest : of_list ordered best_move) (moves : list Move) :
  forall (current_best : option Move) (current_best_value : score) (w : World),
    incl moves ordered ->
    (current_best = None /\ current_best_value = NegInf)
    \/ a_move ordered current_best ->
    match fst (root_loop clock start_time time_limit depth ordered best_move
                         moves current_best current_best_value w) with
    | inl result => a_move ordered result
    | inr (current_best, current_best_value) =>
        (current_best = None /\ current_best_value = NegInf)
        \/ a_move ordered current_best
    end.
Proof.
  induction moves as [|move rest IH]; intros cb cbv w Hincl Hcb.
  - exact Hcb.
  - simpl. unfold bind, time_time.
    destruct (negb (Qle_bool _ _)).
    + simpl. apply best_or_first_a_move, Hbest.
    + unfold board_push, board_pop. simpl.
      destruct (minimax_alpha_beta (depth - 1) NegInf PosInf false _)
        as [value w1].
      assert (Hrest : incl rest ordered).
      { intros m Hm. apply Hincl. right. exact Hm. }
      destruct (slt cbv value).
      * apply IH; [exact Hrest|]. right. exists move.
        split; [reflexivity|]. apply Hincl. left. reflexivity.
      * apply IH; assumption.
Qed.

Lemma deepening_loop_moves (depths : list nat) :
  forall (best_move : option Move) (w : World),
    of_list ordered best_move ->
    a_move ordered (fst (deepening_loop clock start_time time_limit ordered depths
                                best_move w)).
Proof.
  induction depths as [|depth rest IH]; intros best_move w Hbest.
  - simpl. apply best_or_first_a_move, Hbest.
  - simpl. unfold bind, reset_nodes.
    pose proof (root_loop_moves depth Hbest (moves := ordered) (current_best := None)
                  (current_best_value := NegInf)
                  (mkWorld (board w) 0 (clock_reads w))
                  (incl_refl _) (or_introl (conj eq_refl eq_refl))) as Hroot.
    destruct (root_loop _ _ _ _ _ _ _ _ _ _) as [[result|[cb cbv]] w1];
      simpl in Hroot; [exact Hroot|].
    assert (Hbest' : of_list ordered (if truthy cb then cb else best_move)).
    { destruct (truthy cb); [|exact Hbest].
      destruct Hroot as [[-> _]|(m & -> & Hm)]; intros m' E;
        [discriminate|congruence]. }
    destruct (slt (Zscore 5000) cbv) eqn:E5.
    + destruct Hroot as [[_ ->]|Hm]; [discriminate E5|exact Hm].
    + unfold time_time. simpl.
      destruct (negb (Qle_bool _ _)).
      * simpl. apply best_or_first_a_move, Hbest'.
      * apply IH, Hbest'.
Qed.

End Driver.

(** C8.  The driver returns no move exactly when the position has no
    legal move; when the position has a legal move, the driver returns
    one of its legal moves, for every clock and every time limit (also
    when the time is up at the first look at the clock) and every
    maximal depth. *)
Theorem best_move_is_legal (clock : nat -> Q) (max_depth : nat)
    (time_limit : Q) (w : World) :
  let result := fst (get_best_move_fast clock max_depth time_limit w) in
  (result = None <-> legal_moves (board w) = [])
  /\ (legal_moves (board w) <> [] ->
      exists move, result = Some move /\ In move (legal_moves (board w))).
Proof.
  assert (H : match legal_moves (board w) with
              | [] => fst (get_best_move_fast clock max_depth time_limit w)
                      = None
              | _ => exists move,
                       fst (get_best_move_fast clock max_depth time_limit w)
                       = Some move
                       /\ In move (legal_moves (board w))
              end).
  { unfold get_best_move_fast, bind, time_time, get_board. simpl.
    pose proof (get_opening_move_legal (board w)) as Hbook.
    destruct (legal_moves (board w)) as [|m1 [|m2 rest]] eqn:El.
    - reflexivity.
    - exists m1. simpl. auto.
    - destruct (truthy (get_opening_move (board w))) eqn:Et.
      + destruct (get_opening_move (board w)) as [move|]; [|discriminate].
        exists move. split; [reflexivity|]. apply Hbook. reflexivity.
      + pose proof (order_moves_fast_perm (m1 :: m2 :: rest)
                      (mkWorld (board w) (nodes_searched w)
                               (S (clock_reads w)))) as Hp.
        destruct (order_moves_fast _ _) as [ordered w1]. simpl in Hp.
        assert (Hne : ordered <> []).
        { intros ->. apply Permutation_sym, Permutation_nil in Hp.
          discriminate. }
        destruct (deepening_loop_moves clock (clock (clock_reads w))
                    time_limit Hne (range 1 (max_depth + 1))
                    (best_move := None) w1) as (move & E & Hin).
        { intros m' E. discriminate. }
        exists move. split; [exact E|].
        apply Permutation_sym in Hp.
        apply (Permutation_in _ Hp). exact Hin. }
  simpl. destruct (legal_moves (board w)) as [|m1 rest].
  - rewrite H. split; [tauto|congruence].
  - destruct H as (move & -> & Hin). split.
    + split; discriminate.
    + intros _. exists move. auto.
Qed.

(** ** The evaluator under colour mirroring *)

Lemma fold_left_flat_map_total {A B} (h : A -> list B) (f : Z -> B -> Z)
    (g : A -> Z)
    (Hg : forall (acc : Z) (x : A), fold_left f (h x) acc = (acc + g x)%Z)
    (l : list A) :
  forall acc : Z,
    fold_left f (flat_map h l) acc = (acc + total (map g l))%Z.
Proof.
  induction l as [|x l IH]; intros acc; simpl.
  - lia.
  - rewrite fold_left_app, Hg, IH. lia.
Qed.

Lemma fold_left_filter_total {A} (keep : A -> bool) (f : Z -> A -> Z)
    (g : A -> Z)
    (Hg : forall (acc : Z) (x : A), f acc x = (acc + g x)%Z) (l : list A) :
  forall acc : Z,
    fold_left f (filter keep l) acc
    = (acc + total (map (fun x => if keep x then g x else 0%Z) l))%Z.
Proof.
  induction l as [|x l IH]; intros acc; simpl.
  - lia.
  - destruct (keep x); simpl; rewrite ?Hg, IH; lia.
Qed.

Lemma total_opp {A} (g : A -> Z) (l : list A) :
  total (map (fun x => (- g x)%Z) l) = (- total (map g l))%Z.
Proof. induction l as [|x l IH]; simpl; [reflexivity|]. rewrite IH. lia. Qed.

Lemma total_rev_squares (F : Square -> Z) :
  total (map F (rev SQUARES)) = total (map F SQUARES).
Proof.
  set (l := rev SQUARES). vm_compute in l. subst l.
  unfold SQUARES. cbn [seq map total fold_right]. lia.
Qed.

Lemma total_mirror_squares (F : Square -> Z) :
  total (map (fun sq => F (square_mirror sq)) SQUARES) = total (map F SQUARES).
Proof.
  rewrite <- (map_map square_mirror F).
  set (l := map square_mirror SQUARES). vm_compute in l. subst l.
  unfold SQUARES. cbn [seq map total fold_right]. lia.
Qed.

Lemma in_SQUARES (sq : Square) : In sq SQUARES <-> sq < 64.
Proof. unfold SQUARES. rewrite in_seq. lia. Qed.

Lemma all_squares (P : Square -> bool) :
  forallb P SQUARES = true -> forall sq, sq < 64 -> P sq = true.
Proof.
  intros H sq Hsq. rewrite forallb_forall in H. apply H, in_SQUARES, Hsq.
Qed.

Lemma square_mirror_involutive (sq : Square) :
  square_mirror (square_mirror sq) = sq.
Proof.
  unfold square_mirror.
  rewrite Nat.lxor_assoc, Nat.lxor_nilpotent, Nat.lxor_0_r. reflexivity.
Qed.

Lemma square_mirror_coordinates (sq : Square) :
  sq < 64 ->
  square_mirror sq < 64
  /\ square_file sq < 8 /\ square_rank sq < 8
  /\ square_file (square_mirror sq) = square_file sq
  /\ square_rank (square_mirror sq) = 7 - square_rank sq
  /\ square (square_file sq) (square_rank sq) = sq.
Proof.
  intros Hsq.
  pose proof (@all_squares
    (fun sq => (square_mirror sq <? 64) && (square_file sq <? 8)
               && (square_rank sq <? 8)
               && (square_file (square_mirror sq) =? square_file sq)
               && (square_rank (square_mirror sq) =? 7 - square_rank sq)
               && (square (square_file sq) (square_rank sq) =? sq))
    eq_refl sq Hsq) as H.
  simpl in H. rewrite !andb_true_iff, !Nat.ltb_lt, !Nat.eqb_eq in H.
  tauto.
Qed.

Lemma square_mirror_square (f r : nat) :
  f < 8 -> r < 8 ->
  square f r < 64 /\ square_mirror (square f r) = square f (7 - r).
Proof.
  intros Hf Hr.
  assert (H : forallb
                (fun f => forallb
                   (fun r => (square f r <? 64)
                             && (square_mirror (square f r) =? square f (7 - r)))
                   (seq 0 8)) (seq 0 8) = true) by reflexivity.
  rewrite forallb_forall in H.
  specialize (H f ltac:(apply in_seq; lia)).
  rewrite forallb_forall in H.
  specialize (H r ltac:(apply in_seq; lia)).
  rewrite andb_true_iff, Nat.ltb_lt, Nat.eqb_eq in H. exact H.
Qed.

Lemma material_score_total (b : Board) :
  material_score b = total (map (square_value b) SQUARES).
Proof.
  unfold material_score, piece_map.
  rewrite fold_left_flat_map_total with (g := square_value b).
  - rewrite total_rev_squares. lia.
  - intros acc sq. unfold square_value.
    destruct (piece_at b sq) as [piece|]; simpl; [|lia].
    destruct (Bool.eqb (color piece) WHITE); lia.
Qed.

Lemma pawn_structure_total (b : Board) :
  evaluate_pawn_structure_simple b
  = (total (map (white_pawn_value b) SQUARES)
     - total (map (black_pawn_value b) SQUARES))%Z.
Proof.
  unfold evaluate_pawn_structure_simple, pieces.
  rewrite fold_left_filter_total with
    (g := fun pawn =>
            if is_passed b WHITE (square_file pawn) (range 0 (square_rank pawn))
            then (- ((7 - Z.of_nat (square_rank pawn)) * 10))%Z else 0%Z).
  2: { intros acc pawn. destruct (is_passed _ _ _ _); lia. }
  rewrite fold_left_filter_total with
    (g := fun pawn =>
            if is_passed b BLACK (square_file pawn)
                         (range (square_rank pawn + 1) 8)
            then (Z.of_nat (square_rank pawn) * 10)%Z else 0%Z).
  2: { intros acc pawn. destruct (is_passed _ _ _ _); lia. }
  assert (Hw : forall l,
            total (map (fun x =>
                     if opt_eqb Piece_eqb (piece_at b x) (Some (mkPiece PAWN WHITE))
                     then if is_passed b BLACK (square_file x)
                                       (range (square_rank x + 1) 8)
                          then (Z.of_nat (square_rank x) * 10)%Z else 0%Z
                     else 0%Z) l)
            = total (map (white_pawn_value b) l)).
  { intros l. f_equal. apply map_ext. intros sq. unfold white_pawn_value.
    destruct (opt_eqb _ _ _), (is_passed _ _ _ _); reflexivity. }
  assert (Hb : forall l,
            total (map (fun x =>
                     if opt_eqb Piece_eqb (piece_at b x) (Some (mkPiece PAWN BLACK))
                     then if is_passed b WHITE (square_file x)
                                       (range 0 (square_rank x))
                          then (- ((7 - Z.of_nat (square_rank x)) * 10))%Z
                          else 0%Z
                     else 0%Z) l)
            = (- total (map (black_pawn_value b) l))%Z).
  { intros l. rewrite <- total_opp. f_equal. apply map_ext. intros sq.
    unfold black_pawn_value.
    destruct (opt_eqb _ _ _), (is_passed _ _ _ _); simpl; lia. }
  rewrite Hw, Hb. lia.
Qed.

Lemma forallb_agree {A} (f g : A -> bool) (l : list A) :
  (forall x, In x l -> f x = g x) -> forallb f l = forallb g l.
Proof.
  induction l as [|x l IH]; intros H; simpl; [reflexivity|].
  rewrite (H x), IH; [reflexivity| |left; reflexivity].
  intros y Hy. apply H. right. exact Hy.
Qed.

Lemma mirror_piece_is_pawn (x : option Piece) (c : Color) :
  opt_eqb Piece_eqb (mirror_piece x) (Some (mkPiece PAWN c))
  = opt_eqb Piece_eqb x (Some (mkPiece PAWN (negb c))).
Proof. destruct x as [[[] []]|], c; reflexivity. Qed.

Section Mirrored.

Variables b b' : Board.
Hypothesis mirrored : color_mirrored b b'.

Lemma mirrored_piece_at (sq : Square) :
  sq < 64 -> piece_at b' sq = mirror_piece (piece_at b (square_mirror sq)).
Proof. destruct mirrored as [H _]. apply H. Qed.

Lemma mirrored_square_value (sq : Square) :
  sq < 64 -> square_value b' sq = (- square_value b (square_mirror sq))%Z.
Proof.
  intros Hsq. unfold square_value. rewrite (mirrored_piece_at Hsq).
  destruct (piece_at b (square_mirror sq)) as [[pt c]|]; simpl; [|reflexivity].
  unfold get_positional_bonus. simpl.
  destruct c; simpl; rewrite ?square_mirror_involutive; lia.
Qed.

Lemma mirrored_is_passed (c : Color) (file : nat) (ranks ranks' : list nat) :
  file < 8 ->
  (forall r, In r ranks -> r < 8 /\ In (7 - r) ranks') ->
  (forall r, In r ranks' -> r < 8 /\ In (7 - r) ranks) ->
  is_passed b' c file ranks = is_passed b (negb c) file ranks'.
Proof.
  intros Hf H1 H2. unfold is_passed.
  apply forallb_agree. intros f Hin.
  assert (Hf' : f < 8).
  { cbn [In] in Hin. destruct Hin as [<-|[<-|[<-|[]]]]; lia. }
  assert (Hpoint : forall r, r < 8 ->
            negb (opt_eqb Piece_eqb (piece_at b' (square f r))
                          (Some (mkPiece PAWN c)))
            = negb (opt_eqb Piece_eqb (piece_at b (square f (7 - r)))
                            (Some (mkPiece PAWN (negb c))))).
  { intros r Hr. destruct (square_mirror_square Hf' Hr) as [Hsq Hm].
    rewrite (mirrored_piece_at Hsq), Hm, mirror_piece_is_pawn. reflexivity. }
  apply eq_true_iff_eq. rewrite !forallb_forall. split; intros H r Hr.
  - destruct (H2 r Hr) as [Hr8 Hr'].
    specialize (H _ Hr'). rewrite Hpoint in H by lia.
    replace (7 - (7 - r)) with r in H by lia. exact H.
  - destruct (H1 r Hr) as [Hr8 Hr'].
    rewrite Hpoint by lia. apply H, Hr'.
Qed.

Lemma mirrored_white_pawn_value (sq : Square) :
  sq < 64 -> white_pawn_value b' sq = black_pawn_value b (square_mirror sq).
Proof.
  intros Hsq.
  destruct (square_mirror_coordinates Hsq) as (Hm & Hf & Hr & Ef & Er & _).
  unfold white_pawn_value, black_pawn_value.
  rewrite (mirrored_piece_at Hsq), mirror_piece_is_pawn, Ef, Er.
  rewrite (@mirrored_is_passed BLACK (square_file sq)
             (range (square_rank sq + 1) 8) (range 0 (7 - square_rank sq)) Hf).
  - simpl negb. destruct (_ && _); [|reflexivity]. lia.
  - unfold range. intros r Hin. rewrite in_seq in *. lia.
  - unfold range. intros r Hin. rewrite in_seq in *. lia.
Qed.

Lemma mirrored_black_pawn_value (sq : Square) :
  sq < 64 -> black_pawn_value b' sq = white_pawn_value b (square_mirror sq).
Proof.
  intros Hsq.
  destruct (square_mirror_coordinates Hsq) as (Hm & Hf & Hr & Ef & Er & _).
  unfold white_pawn_value, black_pawn_value.
  rewrite (mirrored_piece_at Hsq), mirror_piece_is_pawn, Ef, Er.
  rewrite (@mirrored_is_passed WHITE (square_file sq)
             (range 0 (square_rank sq)) (range (7 - square_rank sq + 1) 8) Hf).
  - simpl negb. destruct (_ && _); [|reflexivity]. lia.
  - unfold range. intros r Hin. rewrite in_seq in *. lia.
  - unfold range. intros r Hin. rewrite in_seq in *. lia.
Qed.

Lemma total_mirrored (F F' : Square -> Z) :
  (forall sq, sq < 64 -> F' sq = F (square_mirror sq)) ->
  total (map F' SQUARES) = total (map F SQUARES).
Proof.
  intros H. rewrite <- (total_mirror_squares F). f_equal.
  apply map_ext_in. intros sq Hin. apply H, in_SQUARES, Hin.
Qed.

Lemma mirrored_material_score : material_score b' = (- material_score b)%Z.
Proof.
  rewrite !material_score_total, <- total_opp.
  apply (total_mirrored (fun sq => (- square_value b sq)%Z)).
  apply mirrored_square_value.
Qed.

Lemma mirrored_pawn_structure :
  evaluate_pawn_structure_simple b'
  = (- evaluate_pawn_structure_simple b)%Z.
Proof.
  rewrite !pawn_structure_total.
  rewrite (total_mirrored (black_pawn_value b) (white_pawn_value b')
             mirrored_white_pawn_value).
  rewrite (total_mirrored (white_pawn_value b) (black_pawn_value b')
             mirrored_black_pawn_value).
  lia.
Qed.

End Mirrored.

Lemma sopp_Zscore (z : Z) : sopp (Zscore z) = Zscore (- z).
Proof.
  unfold sopp, Zscore. f_equal. apply Qc_is_canon.
  unfold Qcopp, Q2Qc. cbn [this]. rewrite !Qred_correct.
  unfold Qeq. simpl. lia.
Qed.

(** C9.  For a position and its colour-mirrored counterpart, the material
    and piece-square sum (with the rook and queen bonuses) and the
    pawn-structure term are opposite; on a finished game the evaluation of
    the one is minus the evaluation of the other; otherwise the two
    evaluations are [(s + mobility) / 100] and [(- s + mobility') / 100]
    for the same [s], each with the position's own mobility term. *)
Theorem evaluation_antisymmetric (b b' : Board) :
  color_mirrored b b' ->
  let s := (material_score b + evaluate_pawn_structure_simple b)%Z in
  material_score b' = (- material_score b)%Z
  /\ evaluate_pawn_structure_simple b'
     = (- evaluate_pawn_structure_simple b)%Z
  /\ (is_checkmate b || is_stalemate b || is_insufficient_material b = true ->
      evaluate_board b' = sopp (evaluate_board b))
  /\ (is_checkmate b || is_stalemate b || is_insufficient_material b = false ->
      evaluate_board b = Val (Q2Qc (Qmake (s + mobility_score b) 100))
      /\ evaluate_board b'
         = Val (Q2Qc (Qmake (- s + mobility_score b') 100))).
Proof.
  intros H. pose proof (mirrored_material_score H) as Hm.
  pose proof (mirrored_pawn_structure H) as Hp.
  destruct H as (_ & Ht & Hc & Hs & Hi).
  cbv zeta. split; [exact Hm|]. split; [exact Hp|].
  unfold evaluate_board. rewrite Hc, Hs, Hi, Ht, Hm, Hp.
  destruct (is_checkmate b); cbn [orb].
  - split; [|discriminate]. intros _.
    destruct (turn b); cbn [negb]; rewrite sopp_Zscore; reflexivity.
  - destruct (is_stalemate b || is_insufficient_material b).
    + split; [|discriminate]. intros _. rewrite sopp_Zscore. reflexivity.
    + split; [discriminate|]. intros _.
      split; do 3 f_equal; lia.
Qed.

(** ** The opening book *)

Lemma split_space_first_no_space (s t1 t2 : string) :
  split_space_first s <> (t1 ++ String " " t2)%string.
Proof.
  revert t1. induction s as [|c s IH]; intros t1; simpl.
  - destruct t1; discriminate.
  - destruct (Ascii.eqb c " ") eqn:E.
    + destruct t1; discriminate.
    + destruct t1 as [|c1 t1]; simpl.
      * intros H. injection H as -> _. discriminate E.
      * intros H. injection H as _ H. exact (IH t1 H).
Qed.

(** The keys of the book are whole FEN records, with their spaces; what
    is looked up is the first field of the position's FEN, which has none.
    So no position is found in the book. *)
Lemma get_opening_move_none (b : Board) : get_opening_move b = None.
Proof.
  unfold get_opening_move, dict_get, opening_moves.
  set (key := split_space_first (fen b)).
  assert (H1 : String.eqb
                 "rnbqkbnr/pppppppp/8/8/8/8/PPPPPPPP/RNBQKBNR w KQkq - 0 1"
                 key = false).
  { apply String.eqb_neq. intros H. symmetry in H.
    exact (split_space_first_no_space (fen b)
             "rnbqkbnr/pppppppp/8/8/8/8/PPPPPPPP/RNBQKBNR" "w KQkq - 0 1" H). }
  assert (H2 : String.eqb
                 "rnbqkbnr/pppppppp/8/8/4P3/8/PPPP1PPP/RNBQKBNR b KQkq - 0 1"
                 key = false).
  { apply String.eqb_neq. intros H. symmetry in H.
    exact (split_space_first_no_space (fen b)
             "rnbqkbnr/pppppppp/8/8/4P3/8/PPPP1PPP/RNBQKBNR" "b KQkq - 0 1" H). }
  cbn [find fst]. rewrite H1, H2. reflexivity.
Qed.

(** With two legal moves or more, the driver goes on to order the moves
    and to search. *)
Lemma get_best_move_fast_searches (clock : nat -> Q) (max_depth : nat)
    (time_limit : Q) (w : World) (m1 m2 : Move) (rest : list Move) :
  legal_moves (board w) = m1 :: m2 :: rest ->
  get_best_move_fast clock max_depth time_limit w
  = bind (order_moves_fast (legal_moves (board w)))
         (fun legal_moves =>
            deepening_loop clock (clock (clock_reads w)) time_limit
                           legal_moves (range 1 (max_depth + 1)) None)
         (mkWorld (board w) (nodes_searched w) (S (clock_reads w))).
Proof.
  intros H. unfold get_best_move_fast, bind at 1 2, time_time, get_board.
  cbn [fst snd board]. rewrite get_opening_move_none, H. reflexivity.
Qed.

(** C3.  Started with the full window, the search returns the score of
    the exhaustive minimax search to the same depth. *)
Theorem alpha_beta_is_minimax (depth : nat) (maximizing_player : bool)
    (w : World) :
  PushPopLaw R ->
  fst (minimax_alpha_beta depth NegInf PosInf maximizing_player w)
  = minimax_exhaustive depth (board w) maximizing_player.
Proof.
  intros push_pop.
  destruct (minimax_alpha_beta_run push_pop depth maximizing_player w
                                   NegInf PosInf) as (n & _ & ->).
  simpl.
  assert (Hw : score_lt NegInf PosInf) by (split; reflexivity).
  apply (alpha_beta_within_window depth (board w) maximizing_player) in Hw.
  set (r := alpha_beta_value _ _ _ _ _) in *.
  set (v := minimax_exhaustive _ _ _) in *.
  pose proof (NegInf_least r). pose proof (NegInf_least v).
  pose proof (PosInf_greatest r). pose proof (PosInf_greatest v).
  clearbody r v. window_cases Hw; ScoreTac.order.
Qed.

End BotProperties.


(** ** The bot on the executable rules engine *)

Lemma pychess_push_pop : PushPopLaw PyChess.rules.
Proof. intros [s st] m. reflexivity. Qed.

Lemma Piece_eqb_eq (p q : Piece) : Piece_eqb p q = true -> p = q.
Proof.
  destruct p as [pt c], q as [pt' c']. unfold Piece_eqb. simpl.
  rewrite andb_true_iff. intros [H1 H2].
  apply PieceType_eqb_eq in H1. apply eqb_prop in H2. congruence.
Qed.

Lemma opt_Piece_eqb_eq (x y : option Piece) :
  opt_eqb Piece_eqb x y = true -> x = y.
Proof.
  destruct x as [p|], y as [q|]; simpl; try discriminate; trivial.
  intros H. f_equal. apply Piece_eqb_eq, H.
Qed.

Lemma mirroredb_color_mirrored (b b' : PyChess.Board) :
  PyChess.mirroredb b b' = true -> color_mirrored b b'.
Proof.
  unfold PyChess.mirroredb. rewrite !andb_true_iff.
  intros [[[[H1 H2] H3] H4] H5]. repeat split.
  - intros sq Hsq. apply opt_Piece_eqb_eq.
    exact (all_squares _ H1 Hsq).
  - apply eqb_prop, H2.
  - apply eqb_prop, H3.
  - apply eqb_prop, H4.
  - apply eqb_prop, H5.
Qed.

(** C1.  At the starting position, White to move: the position's FEN is a
    key of the book and the book's first move for it, e2e4, is legal; yet
    the lookup finds nothing, and the driver, asked for depth 1, visits
    the 20 positions after White's moves in its search. *)
Theorem opening_book_misses_starting_position :
  let b := PyChess.starting_board in
  dict_get opening_moves (fen b)
  = Some [from_uci "e2e4"; from_uci "d2d4"; from_uci "g1f3"]
  /\ is_legal b (from_uci "e2e4") = true
  /\ get_opening_move b = None
  /\ nodes_searched
       (snd (get_best_move_fast PyChess.still_clock 1 2%Q
                                (PyChess.fresh_world b))) = 20%Z.
Proof.
  cbv zeta. split; [vm_compute; reflexivity|].
  split; [vm_compute; reflexivity|].
  split; [apply get_opening_move_none|].
  vm_compute. reflexivity.
Qed.

(** C2, as stated, fails on an en passant capture: after 1. e4 a6 2. e5 d5
    the legal move e5d6 is a capture, it takes the black pawn, the moving
    piece is a white pawn, and its score is 0, not 100 - 100 + 1000. *)
Lemma en_passant_capture_scores_zero :
  let b := PyChess.en_passant_board in
  let move := from_uci "e5d6" in
  In move (legal_moves b)
  /\ is_capture b move = true
  /\ PyChess.captured_piece b move = Some (PyChess.black PAWN)
  /\ piece_at b (from_square move) = Some (PyChess.white PAWN)
  /\ capture_score b move = 0%Z
  /\ capture_score b move
     <> (piece_values PAWN - piece_values PAWN + 1000)%Z.
Proof.
  cbv zeta. split; [apply is_legal_In; vm_compute; reflexivity|].
  repeat split; try (vm_compute; reflexivity).
  vm_compute. discriminate.
Qed.

Lemma capture_score_by_destination_witness :
  let b := PyChess.capture_board in
  let move := from_uci "e4d5" in
  (is_capture b move = true
   /\ piece_at b (to_square move) = Some (PyChess.black PAWN)
   /\ piece_at b (from_square move) = Some (PyChess.white PAWN)
   /\ capture_score b move = 1000%Z)
  /\ (is_capture PyChess.en_passant_board (from_uci "e5d6") = true
      /\ piece_at PyChess.en_passant_board (to_square (from_uci "e5d6")) = None
      /\ capture_score PyChess.en_passant_board (from_uci "e5d6") = 0%Z)
  /\ (is_capture b (from_uci "e4e5") = false
      /\ capture_score b (from_uci "e4e5") = 0%Z).
Proof.
  cbv zeta.
  assert (H1 : is_capture PyChess.capture_board (from_uci "e4d5") = true)
    by (vm_compute; reflexivity).
  assert (H2 : piece_at PyChess.capture_board (to_square (from_uci "e4d5"))
               = Some (PyChess.black PAWN)) by (vm_compute; reflexivity).
  assert (H3 : piece_at PyChess.capture_board (from_square (from_uci "e4d5"))
               = Some (PyChess.white PAWN)) by (vm_compute; reflexivity).
  assert (H4 : is_capture PyChess.en_passant_board (from_uci "e5d6") = true)
    by (vm_compute; reflexivity).
  assert (H5 : piece_at PyChess.en_passant_board
                        (to_square (from_uci "e5d6")) = None)
    by (vm_compute; reflexivity).
  assert (H6 : is_capture PyChess.capture_board (from_uci "e4e5") = false)
    by (vm_compute; reflexivity).
  split; [|split].
  - split; [exact H1|]. split; [exact H2|]. split; [exact H3|].
    exact (proj1 (capture_score_by_destination PyChess.capture_board
                    (from_uci "e4d5")) _ _ H1 H2 H3).
  - split; [exact H4|]. split; [exact H5|].
    exact (proj1 (proj2 (capture_score_by_destination PyChess.en_passant_board
                           (from_uci "e5d6"))) H4 H5).
  - split; [exact H6|].
    exact (proj2 (proj2 (capture_score_by_destination PyChess.capture_board
                           (from_uci "e4e5"))) H6).
Defined.

Lemma alpha_beta_is_minimax_witness :
  PushPopLaw PyChess.rules
  /\ fst (minimax_alpha_beta 2 NegInf PosInf true
            (PyChess.fresh_world PyChess.small_board))
     = minimax_exhaustive 2 PyChess.small_board true.
Proof.
  assert (H : PushPopLaw PyChess.rules) by (intros [s st] m; reflexivity).
  split; [exact H|].
  exact (alpha_beta_is_minimax 2 true
           (PyChess.fresh_world PyChess.small_board) H).
Defined.

Lemma board_restored_witness :
  PushPopLaw PyChess.rules
  /\ board (snd (order_moves_fast (legal_moves PyChess.small_board)
                   (PyChess.fresh_world PyChess.small_board)))
     = PyChess.small_board
  /\ board (snd (minimax_alpha_beta 3 (Zscore (-1)) (Zscore 1) true
                   (PyChess.fresh_world PyChess.small_board)))
     = PyChess.small_board.
Proof.
  assert (H : PushPopLaw PyChess.rules) by (intros [s st] m; reflexivity).
  split; [exact H|].
  pose proof (board_restored H (legal_moves PyChess.small_board) 3
                (Zscore (-1)) (Zscore 1) true
                (PyChess.fresh_world PyChess.small_board)) as [[H1 _] [H2 _]].
  split; [exact H1|exact H2].
Defined.

Lemma order_moves_fast_stable_sort_witness :
  let b := PyChess.capture_board in
  let ordered :=
    fst (order_moves_fast (legal_moves b) (PyChess.fresh_world b)) in
  PushPopLaw PyChess.rules
  /\ Permutation (legal_moves b) ordered
  /\ StronglySorted (fun m1 m2 => (move_score b m2 <= move_score b m1)%Z)
                    ordered
  /\ forall s : Z,
       filter (fun m => (move_score b m =? s)%Z) ordered
       = filter (fun m => (move_score b m =? s)%Z) (legal_moves b).
Proof.
  assert (H : PushPopLaw PyChess.rules) by (intros [s st] m; reflexivity).
  split; [exact H|].
  exact (order_moves_fast_stable_sort H (legal_moves PyChess.capture_board)
           (PyChess.fresh_world PyChess.capture_board)).
Defined.

Lemma evaluate_board_terminal_witness :
  (is_checkmate PyChess.fools_mate = true
   /\ evaluate_board PyChess.fools_mate = Zscore (-100000))
  /\ (is_checkmate PyChess.scholars_mate = true
      /\ evaluate_board PyChess.scholars_mate = Zscore 100000)
  /\ (is_stalemate PyChess.stalemate_board = true
      /\ evaluate_board PyChess.stalemate_board = Zscore 0)
  /\ (is_checkmate PyChess.bare_kings = false
      /\ is_insufficient_material PyChess.bare_kings = true
      /\ evaluate_board PyChess.bare_kings = Zscore 0).
Proof.
  assert (H1 : is_checkmate PyChess.fools_mate = true)
    by (vm_compute; reflexivity).
  assert (H2 : is_checkmate PyChess.scholars_mate = true)
    by (vm_compute; reflexivity).
  assert (H3 : is_stalemate PyChess.stalemate_board = true)
    by (vm_compute; reflexivity).
  assert (H4 : is_checkmate PyChess.bare_kings = false)
    by (vm_compute; reflexivity).
  assert (H5 : is_insufficient_material PyChess.bare_kings = true)
    by (vm_compute; reflexivity).
  split; [|split; [|split]].
  - split; [exact H1|].
    exact (proj1 (evaluate_board_terminal PyChess.fools_mate) H1).
  - split; [exact H2|].
    exact (proj1 (evaluate_board_terminal PyChess.scholars_mate) H2).
  - split; [exact H3|].
    exact (proj1 (proj2 (evaluate_board_terminal PyChess.stalemate_board)) H3).
  - split; [exact H4|]. split; [exact H5|].
    exact (proj2 (proj2 (evaluate_board_terminal PyChess.bare_kings)) H4 H5).
Defined.

Lemma single_legal_move_returned_witness :
  let b := PyChess.one_move_board in
  legal_moves b = [from_uci "a1a2"]
  /\ get_best_move_fast PyChess.still_clock 3 2%Q (PyChess.fresh_world b)
     = (Some (from_uci "a1a2"), mkWorld b 0 1).
Proof.
  cbv zeta.
  assert (H : legal_moves PyChess.one_move_board = [from_uci "a1a2"])
    by (vm_compute; reflexivity).
  split; [exact H|].
  exact (single_legal_move_returned PyChess.still_clock 3 2%Q
           (PyChess.fresh_world PyChess.one_move_board) H).
Defined.

Lemma best_move_is_legal_witness :
  let b := PyChess.small_board in
  legal_moves b <> []
  /\ exists move,
       fst (get_best_move_fast PyChess.racing_clock 3 1%Q
                               (PyChess.fresh_world b)) = Some move
       /\ In move (legal_moves b).
Proof.
  cbv zeta.
  assert (H : legal_moves PyChess.small_board <> [])
    by (vm_compute; discriminate).
  split; [exact H|].
  exact (proj2 (best_move_is_legal PyChess.racing_clock 3 1%Q
                  (PyChess.fresh_world PyChess.small_board)) H).
Defined.

Lemma evaluation_antisymmetric_witness :
  let b := PyChess.kings_pawn in
  let b' := PyChess.kings_pawn_mirrored in
  let s := (material_score b + evaluate_pawn_structure_simple b)%Z in
  (color_mirrored b b'
   /\ is_checkmate b || is_stalemate b || is_insufficient_material b = false
   /\ material_score b' = (- material_score b)%Z
   /\ evaluate_pawn_structure_simple b'
      = (- evaluate_pawn_structure_simple b)%Z
   /\ evaluate_board b = Val (Q2Qc (Qmake (s + mobility_score b) 100))
   /\ evaluate_board b' = Val (Q2Qc (Qmake (- s + mobility_score b') 100)))
  /\ (color_mirrored PyChess.fools_mate PyChess.fools_mate_mirrored
      /\ is_checkmate PyChess.fools_mate = true
      /\ evaluate_board PyChess.fools_mate_mirrored
         = sopp (evaluate_board PyChess.fools_mate)).
Proof.
  cbv zeta.
  assert (H : color_mirrored PyChess.kings_pawn PyChess.kings_pawn_mirrored)
    by (apply mirroredb_color_mirrored; vm_compute; reflexivity).
  assert (Hn : is_checkmate PyChess.kings_pawn
               || is_stalemate PyChess.kings_pawn
               || is_insufficient_material PyChess.kings_pawn = false)
    by (vm_compute; reflexivity).
  assert (H' : color_mirrored PyChess.fools_mate PyChess.fools_mate_mirrored)
    by (apply mirroredb_color_mirrored; vm_compute; reflexivity).
  assert (Ht : is_checkmate PyChess.fools_mate = true)
    by (vm_compute; reflexivity).
  split.
  - split; [exact H|]. split; [exact Hn|].
    pose proof (evaluation_antisymmetric H) as (H1 & H2 & _ & H4).
    split; [exact H1|]. split; [exact H2|]. exact (H4 Hn).
  - split; [exact H'|]. split; [exact Ht|].
    pose proof (evaluation_antisymmetric H') as (_ & _ & H3 & _).
    apply H3. rewrite Ht. reflexivity.
Defined.

Lemma minimax_depth_zero_is_evaluation_witness :
  let w := PyChess.fresh_world PyChess.fools_mate in
  is_game_over PyChess.fools_mate = true
  /\ minimax_alpha_beta 0 NegInf PosInf false w
     = (evaluate_board PyChess.fools_mate, mkWorld PyChess.fools_mate 1 0)
  /\ minimax_alpha_beta 1 NegInf PosInf false w
     = (if is_checkmate PyChess.fools_mate then Zscore 100000 else Zscore 0,
        mkWorld PyChess.fools_mate 1 0).
Proof.
  cbv zeta.
  assert (H : is_game_over PyChess.fools_mate = true)
    by (vm_compute; reflexivity).
  split; [exact H|].
  pose proof (minimax_depth_zero_is_evaluation NegInf PosInf false
                (PyChess.fresh_world PyChess.fools_mate)) as [H0 H1].
  split; [exact H0|exact (H1 0 H)].
Defined.

(** * Further properties of the bot *)

Section MoreProperties.

Context {Board : Type} {R : Rules Board}.

(** X1.  The lookup in the opening book finds no move, whatever the
    position: what is looked up has no space in it, and every key of the
    book has. *)
Theorem opening_book_never_matches (b : Board) : get_opening_move b = None.
Proof. apply get_opening_move_none. Qed.

(** X2.  For every window with [alpha < beta], the result of the search
    bounds the exhaustive minimax value: a result at or below [alpha] is
    an upper bound of it, a result at or above [beta] a lower bound, and a
    result strictly inside the window is the value itself. *)
Theorem search_result_bounds_minimax (depth : nat) (alpha beta : score)
    (maximizing_player : bool) (w : World) :
  PushPopLaw R ->
  slt alpha beta = true ->
  let r := fst (minimax_alpha_beta depth alpha beta maximizing_player w) in
  let v := minimax_exhaustive depth (board w) maximizing_player in
  (sle r alpha = true -> sle v r = true)
  /\ (sle beta r = true -> sle r v = true)
  /\ (slt alpha r = true -> slt r beta = true -> r = v).
Proof.
  intros push_pop Hab. cbv zeta.
  destruct (minimax_alpha_beta_run push_pop depth maximizing_player w
                                   alpha beta) as (n & _ & ->).
  cbn [fst].
  assert (Hlt : score_lt alpha beta).
  { split. unfold slt in Hab. apply negb_true_iff in Hab. exact Hab. }
  destruct (alpha_beta_within_window depth (board w) maximizing_player Hlt)
    as (A & B & C).
  split; [|split].
  - intros H. destruct (A (score_le_intro _ _ H)) as [H']. exact H'.
  - intros H. destruct (B (score_le_intro _ _ H)) as [H']. exact H'.
  - unfold slt. rewrite !negb_true_iff. intros H1 H2.
    apply C; split; assumption.
Qed.

Lemma Zscore_mate_distinct : Zscore (-100000) <> Zscore 100000.
Proof.
  intros H. apply (f_equal (fun s => sle (Zscore 0) s)) in H.
  vm_compute in H. discriminate.
Qed.

(** X3.  On a checkmate position, the score the search gives at a
    positive depth (by [maximizing_player]) is the score the evaluator
    gives (by the side to move) exactly when [maximizing_player] is the
    side to move, White being [True]. *)
Theorem mate_scores_agree_iff (depth : nat) (alpha beta : score)
    (maximizing_player : bool) (w : World) :
  is_checkmate (board w) = true ->
  is_game_over (board w) = true ->
  fst (minimax_alpha_beta (S depth) alpha beta maximizing_player w)
  = evaluate_board (board w)
  <-> maximizing_player = turn (board w).
Proof.
  intros Hm Hg.
  rewrite minimax_alpha_beta_step. cbv zeta. rewrite Hg, Hm. cbn [fst].
  unfold evaluate_board. rewrite Hm.
  pose proof Zscore_mate_distinct as Hd.
  destruct maximizing_player, (turn (board w)); split; intros H;
    try reflexivity; try discriminate H; exfalso; auto.
Qed.

Lemma in_PIECES (piece : Piece) : In piece PIECES.
Proof. destruct piece as [[] []]; simpl; tauto. Qed.

Lemma all_pieces_squares (P : Piece -> Square -> bool) :
  forallb (fun piece => forallb (P piece) SQUARES) PIECES = true ->
  forall piece sq, sq < 64 -> P piece sq = true.
Proof.
  intros H piece sq Hsq. rewrite forallb_forall in H.
  specialize (H piece (in_PIECES piece)).
  exact (all_squares _ H Hsq).
Qed.

(** X4.  On every square of the board the positional bonus of a piece
    lies between -50 and 50, so the material value of a piece with its
    bonus is positive: a piece never counts against its own side. *)
Theorem positional_bonus_bounded (piece : Piece) (sq : Square) :
  sq < 64 ->
  (-50 <= get_positional_bonus piece sq <= 50)%Z
  /\ (0 < piece_values (piece_type piece) + get_positional_bonus piece sq)%Z.
Proof.
  intros Hsq.
  pose proof (@all_pieces_squares
    (fun piece sq =>
       (-50 <=? get_positional_bonus piece sq)%Z
       && (get_positional_bonus piece sq <=? 50)%Z
       && (0 <? piece_values (piece_type piece)
                + get_positional_bonus piece sq)%Z)
    ltac:(vm_compute; reflexivity) piece sq Hsq) as H.
  cbv beta in H. rewrite !andb_true_iff in H.
  destruct H as [[H1 H2] H3].
  apply Z.leb_le in H1, H2. apply Z.ltb_lt in H3. auto.
Qed.

(** X5.  The positional bonus does not tell the queenside from the
    kingside: a piece gets the same bonus on a square and on the square
    of the same rank reflected left to right. *)
Theorem positional_bonus_left_right (piece : Piece) (sq : Square) :
  sq < 64 ->
  get_positional_bonus piece (square_flip sq) = get_positional_bonus piece sq.
Proof.
  intros Hsq.
  pose proof (@all_pieces_squares
    (fun piece sq =>
       (get_positional_bonus piece (square_flip sq)
        =? get_positional_bonus piece sq)%Z)
    ltac:(vm_compute; reflexivity) piece sq Hsq) as H.
  apply Z.eqb_eq in H. exact H.
Qed.

Lemma sopp_hundredths (z : Z) :
  sopp (Val (Q2Qc (Qmake z 100))) = Val (Q2Qc (Qmake (- z) 100)).
Proof.
  unfold sopp. f_equal. apply Qc_is_canon.
  unfold Qcopp, Q2Qc. cbn [this]. rewrite !Qred_correct.
  unfold Qeq. simpl. lia.
Qed.

(** X6.  When a position and its colour-mirrored counterpart have the
    same number of legal moves, the evaluation of the one is exactly minus
    the evaluation of the other, mobility term included. *)
Theorem evaluation_antisymmetric_with_mobility (b b' : Board) :
  color_mirrored b b' ->
  List.length (legal_moves b') = List.length (legal_moves b) ->
  evaluate_board b' = sopp (evaluate_board b).
Proof.
  intros H Hlen.
  pose proof (mirrored_material_score H) as Hm.
  pose proof (mirrored_pawn_structure H) as Hp.
  destruct H as (_ & Ht & Hc & Hs & Hi).
  unfold evaluate_board, mobility_score.
  rewrite Hc, Hs, Hi, Ht, Hm, Hp, Hlen.
  destruct (is_checkmate b).
  - destruct (turn b); cbn [negb]; rewrite sopp_Zscore; reflexivity.
  - destruct (is_stalemate b || is_insufficient_material b).
    + rewrite sopp_Zscore. reflexivity.
    + rewrite sopp_hundredths. do 3 f_equal.
      generalize (Z.of_nat (List.length (legal_moves b))). intros mobility.
      unfold WHITE. destruct (turn b); cbn [negb Bool.eqb].
      * lia.
      * lia.
Qed.

Lemma total_filter {A} (keep : A -> bool) (g : A -> Z) (l : list A) :
  total (map g (filter keep l))
  = total (map (fun x => if keep x then g x else 0%Z) l).
Proof.
  induction l as [|x l IH]; simpl; [reflexivity|].
  destruct (keep x); simpl; rewrite IH; reflexivity.
Qed.

Lemma total_zero {A} (g : A -> Z) (l : list A) :
  (forall x, In x l -> g x = 0%Z) -> total (map g l) = 0%Z.
Proof.
  induction l as [|x l IH]; intros H; simpl; [reflexivity|].
  rewrite (H x), IH; [reflexivity| |left; reflexivity].
  intros y Hy. apply H. right. exact Hy.
Qed.

Lemma opt_Piece_eqb_true (x : option Piece) (piece : Piece) :
  opt_eqb Piece_eqb x (Some piece) = true -> x = Some piece.
Proof.
  destruct x as [[pt c]|]; simpl; [|discriminate].
  destruct piece as [pt' c']. unfold Piece_eqb. simpl.
  rewrite andb_true_iff. intros [H1 H2].
  apply PieceType_eqb_eq in H1. apply eqb_prop in H2. congruence.
Qed.

(** With no pawn of colour [c] on the board, every pawn is passed as far
    as [c] is concerned. *)
Lemma is_passed_no_pawns (b : Board) (c : Color) (file : nat)
    (ranks : list nat) :
  (forall sq, sq < 64 -> piece_at b sq <> Some (mkPiece PAWN c)) ->
  file < 8 -> (forall r, In r ranks -> r < 8) ->
  is_passed b c file ranks = true.
Proof.
  intros H Hf Hr. unfold is_passed.
  apply forallb_forall. intros f Hin.
  assert (Hf' : f < 8).
  { cbn [In] in Hin. destruct Hin as [<-|[<-|[<-|[]]]]; lia. }
  apply forallb_forall. intros r Hin'.
  destruct (square_mirror_square Hf' (Hr r Hin')) as [Hsq _].
  apply negb_true_iff.
  destruct (opt_eqb Piece_eqb (piece_at b (square f r))
                    (Some (mkPiece PAWN c))) eqn:E; [|reflexivity].
  apply opt_Piece_eqb_true in E. exfalso. exact (H _ Hsq E).
Qed.

Lemma total_scale {A} (k : Z) (g : A -> Z) (l : list A) :
  total (map (fun x => (k * g x)%Z) l) = (k * total (map g l))%Z.
Proof.
  induction l as [|x l IH]; cbn [map total fold_right]; [lia|].
  fold (total (map (fun x => (k * g x)%Z) l)). fold (total (map g l)).
  rewrite IH. lia.
Qed.

(** X7.  With no black pawn on the board, the pawn-structure term is ten
    times the sum of the ranks of the white pawns; with no white pawn on
    the board, it is minus ten times the sum, over the black pawns, of
    seven minus the rank. *)
Theorem pawn_structure_unopposed (b : Board) :
  ((forall sq, sq < 64 -> piece_at b sq <> Some (mkPiece PAWN BLACK)) ->
   evaluate_pawn_structure_simple b
   = (10 * total (map (fun sq => Z.of_nat (square_rank sq))
                      (pieces b PAWN WHITE)))%Z)
  /\ ((forall sq, sq < 64 -> piece_at b sq <> Some (mkPiece PAWN WHITE)) ->
      evaluate_pawn_structure_simple b
      = (- (10 * total (map (fun sq => 7 - Z.of_nat (square_rank sq))
                            (pieces b PAWN BLACK))))%Z).
Proof.
  split; intros H; rewrite pawn_structure_total; unfold pieces;
    rewrite total_filter, <- total_scale.
  - rewrite (total_zero (black_pawn_value b)).
    2: { intros sq Hsq. apply in_SQUARES in Hsq. unfold black_pawn_value.
         destruct (opt_eqb _ _ _) eqn:E; [|reflexivity].
         apply opt_Piece_eqb_true in E. exfalso. exact (H _ Hsq E). }
    rewrite Z.sub_0_r. f_equal. apply map_ext_in. intros sq Hsq.
    apply in_SQUARES in Hsq.
    destruct (square_mirror_coordinates Hsq) as (_ & Hf & Hr & _).
    unfold white_pawn_value.
    rewrite (is_passed_no_pawns _ _ H Hf), andb_true_r.
    + destruct (opt_eqb _ _ _); lia.
    + unfold range. intros r Hin. apply in_seq in Hin. lia.
  - rewrite (total_zero (white_pawn_value b)).
    2: { intros sq Hsq. apply in_SQUARES in Hsq. unfold white_pawn_value.
         destruct (opt_eqb _ _ _) eqn:E; [|reflexivity].
         apply opt_Piece_eqb_true in E. exfalso. exact (H _ Hsq E). }
    rewrite Z.sub_0_l. f_equal. f_equal. apply map_ext_in. intros sq Hsq.
    apply in_SQUARES in Hsq.
    destruct (square_mirror_coordinates Hsq) as (_ & Hf & Hr & _).
    unfold black_pawn_value.
    rewrite (is_passed_no_pawns _ _ H Hf), andb_true_r.
    + destruct (opt_eqb _ _ _); lia.
    + unfold range. intros r Hin. apply in_seq in Hin. lia.
Qed.

(** ** What the scores of the orderer do to the order *)

Lemma sorted_precedes {A} (key : A -> Z) (l : list A) (x y : A) :
  StronglySorted (key_ge key) l ->
  In x l -> In y l -> (key y < key x)%Z -> precedes x y l.
Proof.
  induction 1 as [|a l Hl IH Ha]; intros Hx Hy Hlt; [destruct Hx|].
  rewrite Forall_forall in Ha. unfold key_ge in Ha.
  destruct Hx as [->|Hx].
  - destruct Hy as [->|Hy]; [lia|].
    apply in_split in Hy. destruct Hy as (l2 & l3 & ->).
    exists [], l2, l3. reflexivity.
  - destruct Hy as [->|Hy].
    + specialize (Ha _ Hx). lia.
    + destruct (IH Hx Hy Hlt) as (l1 & l2 & l3 & ->).
      exists (a :: l1), l2, l3. reflexivity.
Qed.

Lemma piece_values_bounds (pt : PieceType) :
  (100 <= piece_values pt <= 20000)%Z
  /\ (pt <> KING -> (piece_values pt <= 900)%Z).
Proof. destruct pt; simpl; split; try lia; intros H; try lia; congruence. Qed.

Lemma move_score_bonuses (b : Board) (move : Move) :
  (capture_score b move <= move_score b move
   <= capture_score b move + 950)%Z
  /\ (promotion move = None ->
      (move_score b move <= capture_score b move + 50)%Z).
Proof.
  unfold move_score.
  destruct (promotion move), (is_check (push b move)); split;
    try lia; intros H; try discriminate; lia.
Qed.

Section Priorities.

Hypothesis push_pop : PushPopLaw R.

Variable w : @World Board.
Variable moves : list Move.

Lemma ordered_by_score (m1 m2 : Move) :
  In m1 moves -> In m2 moves ->
  (move_score (board w) m2 < move_score (board w) m1)%Z ->
  precedes m1 m2 (fst (order_moves_fast moves w)).
Proof.
  intros H1 H2 Hlt. rewrite order_moves_fast_run by exact push_pop.
  cbn [fst]. unfold ordered_moves.
  apply sorted_precedes with (key := move_score (board w));
    [apply sort_reverse_sorted| | |exact Hlt].
  - apply (Permutation_in _ (sort_reverse_perm _ moves)), H1.
  - apply (Permutation_in _ (sort_reverse_perm _ moves)), H2.
Qed.


(** X9.  A capture by the king is tried after every move that is not a
    capture: the king's material value, 20000, is subtracted from its
    score. *)
Theorem king_capture_after_quiet_move (capture quiet : Move)
    (victim aggressor : Piece) :
  In capture moves -> In quiet moves ->
  is_capture (board w) capture = true ->
  piece_at (board w) (to_square capture) = Some victim ->
  piece_at (board w) (from_square capture) = Some aggressor ->
  piece_type aggressor = KING ->
  piece_type victim <> KING ->
  promotion capture = None ->
  is_capture (board w) quiet = false ->
  precedes quiet capture (fst (order_moves_fast moves w)).
Proof.
  intros H1 H2 Hc Hv Ha Hk Hvk Hp Hq. apply ordered_by_score; trivial.
  pose proof (move_score_bonuses (board w) capture) as [_ Hhi].
  pose proof (move_score_bonuses (board w) quiet) as [[Hlo _] _].
  specialize (Hhi Hp).
  unfold capture_score in Hlo, Hhi. rewrite Hc, Hv, Ha, Hk in Hhi.
  rewrite Hq in Hlo.
  pose proof (piece_values_bounds (piece_type victim)) as [_ Bv].
  specialize (Bv Hvk). simpl in Hhi. lia.
Qed.

(** X14.  A promotion of a pawn is tried before every move that neither
    captures nor promotes. *)
Theorem promotion_before_quiet_move (promo quiet : Move) (pt : PieceType)
    (pawn : Piece) :
  In promo moves -> In quiet moves ->
  promotion promo = Some pt ->
  piece_at (board w) (from_square promo) = Some pawn ->
  piece_type pawn = PAWN ->
  is_capture (board w) quiet = false ->
  promotion quiet = None ->
  precedes promo quiet (fst (order_moves_fast moves w)).
Proof.
  intros H1 H2 Hpt Ha Hpawn Hq Hp. apply ordered_by_score; trivial.
  pose proof (move_score_bonuses (board w) quiet) as [_ Hhi].
  specialize (Hhi Hp). unfold capture_score in Hhi. rewrite Hq in Hhi.
  assert (Hlo : (900 <= move_score (board w) promo)%Z).
  { unfold move_score, capture_score. rewrite Hpt, Ha, Hpawn.
    destruct (is_capture (board w) promo);
      [destruct (piece_at (board w) (to_square promo)) as [victim|]|];
      try (pose proof (piece_values_bounds (piece_type victim)) as [Bv _]);
      destruct (is_check (push (board w) promo)); simpl; lia. }
  lia.
Qed.

(** X15.  Among the moves that neither capture nor promote, a move that
    gives check is tried before every move that does not. *)
Theorem check_before_quiet_move (checking quiet : Move) :
  In checking moves -> In quiet moves ->
  is_capture (board w) checking = false ->
  is_check (push (board w) checking) = true ->
  is_capture (board w) quiet = false ->
  promotion quiet = None ->
  is_check (push (board w) quiet) = false ->
  precedes checking quiet (fst (order_moves_fast moves w)).
Proof.
  intros H1 H2 Hc Hk Hq Hp Hn. apply ordered_by_score; trivial.
  unfold move_score, capture_score. rewrite Hc, Hk, Hq, Hp, Hn.
  destruct (promotion checking); lia.
Qed.

Lemma sort_reverse_sorted_id {A} (key : A -> Z) (l : list A) :
  StronglySorted (key_ge key) l -> sort_reverse key l = l.
Proof.
  induction 1 as [|a l Hl IH Ha]; simpl; [reflexivity|].
  rewrite IH. destruct l as [|y l]; [reflexivity|]. simpl.
  apply Forall_inv in Ha. unfold key_ge in Ha.
  destruct (key a <? key y)%Z eqn:E; [|reflexivity].
  apply Z.ltb_lt in E. lia.
Qed.

(** X10.  Ordering is idempotent: the orderer returns an ordered list
    as it is. *)
Theorem order_moves_fast_idempotent :
  let ordered := fst (order_moves_fast moves w) in
  fst (order_moves_fast ordered w) = ordered.
Proof.
  cbv zeta. rewrite !order_moves_fast_run by exact push_pop. cbn [fst].
  unfold ordered_moves. apply sort_reverse_sorted_id, sort_reverse_sorted.
Qed.

End Priorities.

(** ** The cost of the search *)

Lemma total_perm (l l' : list Z) : Permutation l l' -> total l = total l'.
Proof.
  induction 1 as [|x l l' _ IH|x y l|l l' l'' _ IH _ IH']; simpl; lia.
Qed.

Lemma total_nonneg {A} (g : A -> Z) (l : list A) :
  (forall x, 0 <= g x)%Z -> (0 <= total (map g l))%Z.
Proof.
  intros H. induction l as [|x l IH]; simpl; [lia|].
  specialize (H x). lia.
Qed.

Section Cost.

Hypothesis push_pop : PushPopLaw R.

Variable search : score -> score -> @M Board score.
Variable value : Board -> score -> score -> score.
Variable size : Board -> Z.
Hypothesis search_bounded :
  forall (w : World) (alpha beta : score),
    exists n : Z, (0 < n <= size (board w))%Z
      /\ search alpha beta w = (value (board w) alpha beta, counted n w).

Lemma size_positive (b : Board) : (0 <= size b)%Z.
Proof.
  destruct (search_bounded (mkWorld b 0 0) NegInf NegInf) as (n & Hn & _).
  simpl in Hn. lia.
Qed.

Lemma max_loop_bounded (moves : list Move) :
  forall (w : World) (alpha beta max_eval : score),
    exists n : Z,
      (0 <= n <= total (map (fun move => size (push (board w) move)) moves))%Z
      /\ max_loop search moves alpha beta max_eval w
         = (max_value value (board w) moves alpha beta max_eval, counted n w).
Proof.
  induction moves as [|move rest IH]; intros w alpha beta max_eval.
  - exists 0%Z. split; [simpl; lia|]. simpl. unfold ret, counted.
    rewrite Z.add_0_r, World_eta. reflexivity.
  - cbn [max_loop max_value map total fold_right].
    fold (total (map (fun move => size (push (board w) move)) rest)).
    pose proof (total_nonneg (fun move => size (push (board w) move)) rest
                  (fun move => size_positive _)) as Hrest.
    unfold bind, board_push, board_pop.
    destruct (search_bounded
                (mkWorld (push (board w) move) (nodes_searched w)
                         (clock_reads w)) alpha beta) as (n & Hn & ->).
    cbn [board nodes_searched clock_reads counted] in *.
    rewrite push_pop.
    destruct (sle beta (smax alpha (value (push (board w) move) alpha beta))).
    + exists n. split; [lia|]. reflexivity.
    + destruct (IH (counted n w)
                   (smax alpha (value (push (board w) move) alpha beta)) beta
                   (smax max_eval (value (push (board w) move) alpha beta)))
        as (n' & Hn' & E).
      exists (n + n')%Z. cbn [counted board] in Hn'. split; [lia|].
      unfold counted at 1 in E. cbn [board nodes_searched clock_reads] in E.
      rewrite E, counted_counted. reflexivity.
Qed.

Lemma min_loop_bounded (moves : list Move) :
  forall (w : World) (alpha beta min_eval : score),
    exists n : Z,
      (0 <= n <= total (map (fun move => size (push (board w) move)) moves))%Z
      /\ min_loop search moves alpha beta min_eval w
         = (min_value value (board w) moves alpha beta min_eval, counted n w).
Proof.
  induction moves as [|move rest IH]; intros w alpha beta min_eval.
  - exists 0%Z. split; [simpl; lia|]. simpl. unfold ret, counted.
    rewrite Z.add_0_r, World_eta. reflexivity.
  - cbn [min_loop min_value map total fold_right].
    fold (total (map (fun move => size (push (board w) move)) rest)).
    pose proof (total_nonneg (fun move => size (push (board w) move)) rest
                  (fun move => size_positive _)) as Hrest.
    unfold bind, board_push, board_pop.
    destruct (search_bounded
                (mkWorld (push (board w) move) (nodes_searched w)
                         (clock_reads w)) alpha beta) as (n & Hn & ->).
    cbn [board nodes_searched clock_reads counted] in *.
    rewrite push_pop.
    destruct (sle (smin beta (value (push (board w) move) alpha beta)) alpha).
    + exists n. split; [lia|]. reflexivity.
    + destruct (IH (counted n w) alpha
                   (smin beta (value (push (board w) move) alpha beta))
                   (smin min_eval (value (push (board w) move) alpha beta)))
        as (n' & Hn' & E).
      exists (n + n')%Z. cbn [counted board] in Hn'. split; [lia|].
      unfold counted at 1 in E. cbn [board nodes_searched clock_reads] in E.
      rewrite E, counted_counted. reflexivity.
Qed.

End Cost.

Lemma minimax_alpha_beta_bounded (push_pop : PushPopLaw R) (depth : nat) :
  forall (maximizing_player : bool) (w : World) (alpha beta : score),
    exists n : Z, (0 < n <= tree_size depth (board w))%Z
      /\ minimax_alpha_beta depth alpha beta maximizing_player w
         = (alpha_beta_value depth (board w) alpha beta maximizing_player,
            counted n w).
Proof.
  induction depth as [|depth IH]; intros maximizing_player w alpha beta.
  - exists 1%Z. split; [simpl; lia|]. reflexivity.
  - rewrite minimax_alpha_beta_step. cbn [alpha_beta_value tree_size].
    destruct (is_game_over (board w)).
    + exists 1%Z. split; [lia|].
      destruct (is_checkmate (board w)); reflexivity.
    + unfold bind. rewrite order_moves_fast_run by exact push_pop.
      cbn [board].
      assert (Hp : total (map (fun move => tree_size depth (push (board w) move))
                              (ordered_moves (board w) (legal_moves (board w))))
                   = total (map (fun move => tree_size depth (push (board w) move))
                                (legal_moves (board w)))).
      { apply total_perm, Permutation_map, Permutation_sym, sort_reverse_perm. }
      rewrite <- Hp.
      destruct maximizing_player.
      * destruct (@max_loop_bounded push_pop
                    (fun alpha beta =>
                       minimax_alpha_beta depth alpha beta false)
                    (fun b alpha beta =>
                       alpha_beta_value depth b alpha beta false)
                    (tree_size depth) (IH false)
                    (ordered_moves (board w) (legal_moves (board w)))
                    (mkWorld (board w) (nodes_searched w + 1) (clock_reads w))
                    alpha beta NegInf) as (n & Hn & E).
        exists (1 + n)%Z. cbn [board] in Hn. split; [lia|].
        cbn [board] in E. rewrite E. unfold counted.
        cbn [board nodes_searched clock_reads].
        rewrite Z.add_assoc. reflexivity.
      * destruct (@min_loop_bounded push_pop
                    (fun alpha beta =>
                       minimax_alpha_beta depth alpha beta true)
                    (fun b alpha beta =>
                       alpha_beta_value depth b alpha beta true)
                    (tree_size depth) (IH true)
                    (ordered_moves (board w) (legal_moves (board w)))
                    (mkWorld (board w) (nodes_searched w + 1) (clock_reads w))
                    alpha beta PosInf) as (n & Hn & E).
        exists (1 + n)%Z. cbn [board] in Hn. split; [lia|].
        cbn [board] in E. rewrite E. unfold counted.
        cbn [board nodes_searched clock_reads].
        rewrite Z.add_assoc. reflexivity.
Qed.

(** X11.  A call of the search counts at least one node and never more
    nodes than the exhaustive search to the same depth has positions. *)
Theorem nodes_searched_bounded (depth : nat) (alpha beta : score)
    (maximizing_player : bool) (w : World) :
  PushPopLaw R ->
  let w' := snd (minimax_alpha_beta depth alpha beta maximizing_player w) in
  (0 < nodes_searched w' - nodes_searched w <= tree_size depth (board w))%Z.
Proof.
  intros push_pop. cbv zeta.
  destruct (minimax_alpha_beta_bounded push_pop depth maximizing_player w
                                       alpha beta) as (n & Hn & ->).
  unfold counted. cbn [snd nodes_searched]. lia.
Qed.

(** ** The driver without search, and with all the time it needs *)

Lemma ordered_moves_not_empty (b : Board) (m : Move) (moves : list Move) :
  ordered_moves b (m :: moves) <> [].
Proof.
  intros H.
  pose proof (sort_reverse_perm (move_score b) (m :: moves)) as Hp.
  unfold ordered_moves in H. rewrite H in Hp.
  apply Permutation_sym, Permutation_nil in Hp. discriminate.
Qed.

(** X12.  With two legal moves or more, when the clock is past the limit
    at the first look of the first iteration, or when the maximal depth is
    0, the driver returns the first move of the ordered list and has not
    searched: the board is as before and no node was counted. *)
Theorem no_time_returns_first_ordered (clock : nat -> Q) (max_depth : nat)
    (time_limit : Q) (w : World) (m1 m2 : Move) (rest : list Move) :
  PushPopLaw R ->
  legal_moves (board w) = m1 :: m2 :: rest ->
  let first := hd_error (ordered_moves (board w) (legal_moves (board w))) in
  (max_depth = 0 ->
   get_best_move_fast clock max_depth time_limit w
   = (first, mkWorld (board w) (nodes_searched w) (S (clock_reads w))))
  /\ (0 < max_depth ->
      Qle_bool (clock (S (clock_reads w)) - clock (clock_reads w)) time_limit
      = false ->
      get_best_move_fast clock max_depth time_limit w
      = (first, mkWorld (board w) 0 (S (S (clock_reads w))))).
Proof.
  intros push_pop Hl. cbv zeta.
  rewrite (get_best_move_fast_searches clock max_depth time_limit w Hl).
  unfold bind. rewrite order_moves_fast_run by exact push_pop.
  cbn [board clock_reads nodes_searched].
  pose proof (ordered_moves_not_empty (board w) m1 (m2 :: rest)) as Hne.
  rewrite <- Hl in Hne. split.
  - intros ->. reflexivity.
  - intros Hd Ht. destruct max_depth as [|d]; [lia|].
    replace (range 1 (S d + 1)) with (1 :: range 2 (S d + 1))
      by (unfold range; replace (S d + 1 - 1) with (S (S d + 1 - 2)) by lia;
          reflexivity).
    cbn [deepening_loop]. unfold bind, reset_nodes.
    cbn [board clock_reads nodes_searched].
    destruct (ordered_moves (board w) (legal_moves (board w)))
      as [|m ordered] eqn:E; [congruence|].
    cbn [root_loop]. unfold bind, time_time.
    cbn [board clock_reads nodes_searched]. rewrite Ht. reflexivity.
Qed.

Lemma evaluate_board_finite (b : Board) : exists q, evaluate_board b = Val q.
Proof.
  unfold evaluate_board, Zscore.
  destruct (is_checkmate b); [destruct (turn b); eexists; reflexivity|].
  destruct (_ || _); eexists; reflexivity.
Qed.

Lemma smax_finite (a b : score) :
  (exists q, b = Val q) -> a = NegInf \/ (exists q, a = Val q) ->
  exists q, smax a b = Val q.
Proof.
  intros [q ->] [->|[q' ->]]; unfold smax.
  - exists q. reflexivity.
  - destruct (slt _ _); eexists; reflexivity.
Qed.

Lemma smin_finite (a b : score) :
  (exists q, b = Val q) -> a = PosInf \/ (exists q, a = Val q) ->
  exists q, smin a b = Val q.
Proof.
  intros [q ->] [->|[q' ->]]; unfold smin.
  - exists q. reflexivity.
  - destruct (slt _ _); eexists; reflexivity.
Qed.

Lemma fold_smax_finite (l : list score) :
  Forall (fun s => exists q, s = Val q) l ->
  forall a, (a = NegInf /\ l <> []) \/ (exists q, a = Val q) ->
  exists q, fold_left smax l a = Val q.
Proof.
  induction 1 as [|x l Hx Hl IH]; intros a Ha; simpl.
  - destruct Ha as [[_ H]|H]; [congruence|exact H].
  - apply IH. right. apply smax_finite; [exact Hx|].
    destruct Ha as [[-> _]|H]; auto.
Qed.

Lemma fold_smin_finite (l : list score) :
  Forall (fun s => exists q, s = Val q) l ->
  forall a, (a = PosInf /\ l <> []) \/ (exists q, a = Val q) ->
  exists q, fold_left smin l a = Val q.
Proof.
  induction 1 as [|x l Hx Hl IH]; intros a Ha; simpl.
  - destruct Ha as [[_ H]|H]; [congruence|exact H].
  - apply IH. right. apply smin_finite; [exact Hx|].
    destruct Ha as [[-> _]|H]; auto.
Qed.

Lemma minimax_exhaustive_finite (no_moves : NoMovesLaw) (depth : nat) :
  forall (b : Board) (maximizing_player : bool),
    exists q, minimax_exhaustive depth b maximizing_player = Val q.
Proof.
  induction depth as [|depth IH]; intros b maximizing_player; simpl.
  - apply evaluate_board_finite.
  - destruct (is_game_over b) eqn:Hg.
    + destruct (is_checkmate b); [destruct maximizing_player|];
        eexists; reflexivity.
    + assert (Hne : map (fun move => minimax_exhaustive depth (push b move)
                                       (negb maximizing_player))
                        (legal_moves b) <> []).
      { destruct (legal_moves b) eqn:E; [|discriminate].
        rewrite (no_moves b E) in Hg. discriminate. }
      assert (Hall : Forall (fun s => exists q, s = Val q)
                       (map (fun move => minimax_exhaustive depth (push b move)
                                           (negb maximizing_player))
                            (legal_moves b))).
      { apply Forall_forall. intros s Hs. apply in_map_iff in Hs.
        destruct Hs as (m & <- & _). apply IH. }
      destruct maximizing_player.
      * apply fold_smax_finite; auto.
      * apply fold_smin_finite; auto.
Qed.

Lemma first_best_spec (value : Move -> score) (moves : list Move) :
  forall (current_best : option Move) (current_best_value : score),
    let (best, best_value) :=
      first_best value moves current_best current_best_value in
    score_le current_best_value best_value
    /\ (forall move, In move moves -> score_le (value move) best_value)
    /\ ((best = current_best /\ best_value = current_best_value)
        \/ (exists move, In move moves /\ best = Some move
                         /\ best_value = value move)).
Proof.
  induction moves as [|m rest IH]; intros cb cbv; simpl.
  - split; [ScoreTac.order|]. split; [intros ? []|]. left. auto.
  - destruct (slt cbv (value m)) eqn:E; unfold slt in E.
    + apply negb_true_iff, score_lt_intro in E.
      specialize (IH (Some m) (value m)).
      destruct (first_best value rest (Some m) (value m)) as [r v].
      destruct IH as (H1 & H2 & H3).
      split; [ScoreTac.order|]. split.
      * intros m' [<-|Hm']; [exact H1|apply H2, Hm'].
      * right. destruct H3 as [[-> ->]|(m' & Hin & -> & ->)].
        -- exists m. auto.
        -- exists m'. auto.
    + apply negb_false_iff, score_le_intro in E.
      specialize (IH cb cbv).
      destruct (first_best value rest cb cbv) as [r v].
      destruct IH as (H1 & H2 & H3).
      split; [exact H1|]. split.
      * intros m' [<-|Hm']; [ScoreTac.order|apply H2, Hm'].
      * destruct H3 as [H3|(m' & Hin & -> & ->)]; [left; exact H3|].
        right. exists m'. auto.
Qed.

Lemma first_best_finite (value : Move -> score) (m : Move)
    (moves : list Move) :
  (forall move, exists q, value move = Val q) ->
  exists best,
    first_best value (m :: moves) None NegInf = (Some best, value best)
    /\ In best (m :: moves)
    /\ forall move, In move (m :: moves) ->
                    sle (value move) (value best) = true.
Proof.
  intros Hfin.
  pose proof (first_best_spec value (m :: moves) None NegInf) as H.
  destruct (first_best value (m :: moves) None NegInf) as [r v].
  destruct H as (_ & H2 & H3).
  destruct H3 as [[-> ->]|(best & Hin & -> & ->)].
  - exfalso. destruct (Hfin m) as [q Hq].
    destruct (H2 m (or_introl eq_refl)) as [H]. rewrite Hq in H.
    discriminate H.
  - exists best. split; [reflexivity|]. split; [exact Hin|].
    intros move Hm. destruct (H2 move Hm) as [H]. exact H.
Qed.

Section InTime.

Hypothesis push_pop : PushPopLaw R.

Variable clock : nat -> Q.
Variables start_time time_limit : Q.
Hypothesis enough_time : in_time clock start_time time_limit.

Variable ordered : list Move.

Lemma root_loop_in_time (depth : nat) (best_move : option Move)
    (moves : list Move) :
  forall (current_best : option Move) (current_best_value : score)
         (w : World),
    exists n : Z,
      root_loop clock start_time time_limit depth ordered best_move moves
                current_best current_best_value w
      = (inr (first_best (root_value depth (board w)) moves current_best
                         current_best_value),
         mkWorld (board w) (nodes_searched w + n)
                 (clock_reads w + List.length moves)).
Proof.
  induction moves as [|move rest IH]; intros cb cbv w.
  - exists 0%Z. simpl. unfold ret.
    rewrite Z.add_0_r, Nat.add_0_r, World_eta. reflexivity.
  - cbn [root_loop first_best]. unfold bind, time_time.
    rewrite (proj1 (enough_time (clock_reads w))). cbn [negb].
    unfold board_push, board_pop. cbn [board nodes_searched clock_reads].
    destruct (minimax_alpha_beta_run push_pop (depth - 1) false
                (mkWorld (push (board w) move) (nodes_searched w)
                         (S (clock_reads w))) NegInf PosInf) as (n & _ & E).
    rewrite E. cbn [board counted nodes_searched clock_reads].
    rewrite push_pop, full_window_value.
    fold (root_value depth (board w) move).
    destruct (slt cbv (root_value depth (board w) move)).
    + destruct (IH (Some move) (root_value depth (board w) move)
                   (mkWorld (board w) (nodes_searched w + n)
                            (S (clock_reads w)))) as (n' & ->).
      exists (n + n')%Z. cbn [board nodes_searched clock_reads List.length].
      rewrite Z.add_assoc, Nat.add_succ_r. reflexivity.
    + destruct (IH cb cbv
                   (mkWorld (board w) (nodes_searched w + n)
                            (S (clock_reads w)))) as (n' & ->).
      exists (n + n')%Z. cbn [board nodes_searched clock_reads List.length].
      rewrite Z.add_assoc, Nat.add_succ_r. reflexivity.
Qed.

Hypothesis no_moves : NoMovesLaw.
Hypothesis ordered_truthy : forall move, In move ordered -> Move_bool move = true.
Hypothesis ordered_not_empty : ordered <> [].

Lemma deepening_loop_in_time (depths : list nat) :
  depths <> [] ->
  forall (best_move : option Move) (w : World),
    exists depth move,
      In depth depths
      /\ fst (deepening_loop clock start_time time_limit ordered depths
                             best_move w) = Some move
      /\ In move ordered
      /\ (forall other, In other ordered ->
            sle (root_value depth (board w) other)
                (root_value depth (board w) move) = true)
      /\ (depth = last depths 0
          \/ slt (Zscore 5000) (root_value depth (board w) move) = true).
Proof.
  induction depths as [|depth rest IH]; intros Hne best_move w;
    [congruence|].
  cbn [deepening_loop]. unfold bind, reset_nodes.
  destruct (root_loop_in_time depth best_move ordered None NegInf
              (mkWorld (board w) 0 (clock_reads w))) as (n & ->).
  cbn [board nodes_searched clock_reads].
  destruct ordered as [|m others] eqn:Eo; [congruence|].
  destruct (@first_best_finite (root_value depth (board w)) m others)
    as (best & -> & Hin & Hmax).
  { intros move. apply minimax_exhaustive_finite, no_moves. }
  assert (Ht : truthy (Some best) = true) by (apply ordered_truthy, Hin).
  rewrite Ht.
  destruct (slt (Zscore 5000) (root_value depth (board w) best)) eqn:E5.
  - exists depth, best. cbn [fst]. repeat split; auto. left. reflexivity.
  - unfold time_time at 1. cbn [board nodes_searched clock_reads].
    rewrite (proj2 (enough_time _)). cbn [negb].
    destruct rest as [|depth' rest'].
    + exists depth, best. cbn [deepening_loop fst]. unfold ret, best_or_first.
      rewrite Ht. repeat split; auto. left. reflexivity.
    + destruct (IH ltac:(discriminate) (Some best)
                   (mkWorld (board w) (0 + n)
                            (S (clock_reads w + List.length (m :: others)))))
        as (d & mv & Hd & Hr & Hm & Hbest & Hlast).
      exists d, mv. cbn [board] in *. repeat split; auto.
      right. exact Hd.
Qed.

End InTime.

(** X13.  With two legal moves or more, a positive maximal depth and a
    clock that never shows more than the limit nor more than half of it,
    the driver returns a legal move whose exhaustive minimax value at the
    root is the greatest of some iteration: the last one, of depth
    [max_depth], or an earlier one in which that value exceeds 5000. *)
Theorem deepest_iteration_best_move (clock : nat -> Q) (max_depth : nat)
    (time_limit : Q) (w : World) (m1 m2 : Move) (rest : list Move) :
  PushPopLaw R ->
  NoMovesLaw ->
  legal_moves (board w) = m1 :: m2 :: rest ->
  (forall move, In move (legal_moves (board w)) -> Move_bool move = true) ->
  in_time clock (clock (clock_reads w)) time_limit ->
  0 < max_depth ->
  exists depth move,
    1 <= depth <= max_depth
    /\ fst (get_best_move_fast clock max_depth time_limit w) = Some move
    /\ In move (legal_moves (board w))
    /\ (forall other, In other (legal_moves (board w)) ->
          sle (root_value depth (board w) other)
              (root_value depth (board w) move) = true)
    /\ (depth = max_depth
        \/ slt (Zscore 5000) (root_value depth (board w) move) = true).
Proof.
  intros push_pop no_moves Hl Htruthy Htime Hd.
  rewrite (get_best_move_fast_searches clock max_depth time_limit w Hl).
  unfold bind. rewrite order_moves_fast_run by exact push_pop.
  cbn [board clock_reads nodes_searched].
  pose proof (sort_reverse_perm (move_score (board w)) (legal_moves (board w)))
    as Hp.
  fold (ordered_moves (board w) (legal_moves (board w))) in Hp.
  assert (Hne : ordered_moves (board w) (legal_moves (board w)) <> []).
  { rewrite Hl. apply ordered_moves_not_empty. }
  assert (Hdepths : range 1 (max_depth + 1) <> []).
  { unfold range. destruct max_depth; [lia|].
    replace (S max_depth + 1 - 1) with (S max_depth) by lia. discriminate. }
  destruct (@deepening_loop_in_time push_pop clock (clock (clock_reads w))
              time_limit Htime
              (ordered_moves (board w) (legal_moves (board w)))
              no_moves
              (fun move Hm =>
                 Htruthy move (Permutation_in _ (Permutation_sym Hp) Hm))
              Hne (range 1 (max_depth + 1)) Hdepths None
              (mkWorld (board w) (nodes_searched w) (S (clock_reads w))))
    as (depth & move & Hin & Hr & Hm & Hbest & Hlast).
  cbn [board] in *.
  exists depth, move.
  assert (Hrange : 1 <= depth <= max_depth).
  { unfold range in Hin. apply in_seq in Hin. lia. }
  split; [exact Hrange|]. split; [exact Hr|].
  split; [exact (Permutation_in _ (Permutation_sym Hp) Hm)|].
  split.
  - intros other Ho. apply Hbest. exact (Permutation_in _ Hp Ho).
  - destruct Hlast as [Hlast|Hlast]; [left|right; exact Hlast].
    rewrite Hlast. unfold range.
    replace (max_depth + 1 - 1) with (S (max_depth - 1)) by lia.
    rewrite seq_S, last_last. lia.
Qed.

(** ** What the evaluation and the driver leave alone *)

Lemma is_passed_same_pieces (b1 b2 : Board) (c : Color) (file : nat)
    (ranks : list nat) :
  (forall sq, sq < 64 -> piece_at b1 sq = piece_at b2 sq) ->
  file < 8 -> (forall r, In r ranks -> r < 8) ->
  is_passed b1 c file ranks = is_passed b2 c file ranks.
Proof.
  intros H Hf Hr. unfold is_passed.
  apply forallb_agree. intros f Hin.
  assert (Hf' : f < 8).
  { cbn [In] in Hin. destruct Hin as [<-|[<-|[<-|[]]]]; lia. }
  apply forallb_agree. intros r Hin'.
  destruct (square_mirror_square Hf' (Hr r Hin')) as [Hsq _].
  rewrite (H _ Hsq). reflexivity.
Qed.

(** X16.  The evaluation depends on the position only through the pieces
    on the 64 squares, the side to move, whether that side is in check,
    the number of its legal moves and the sufficiency of the material:
    castling rights, the en passant square, the move counters and the
    history play no part. *)
Theorem evaluate_board_depends_on (b1 b2 : Board) :
  (forall sq, sq < 64 -> piece_at b1 sq = piece_at b2 sq) ->
  turn b1 = turn b2 ->
  is_check b1 = is_check b2 ->
  List.length (legal_moves b1) = List.length (legal_moves b2) ->
  is_insufficient_material b1 = is_insufficient_material b2 ->
  evaluate_board b1 = evaluate_board b2.
Proof.
  intros Hp Ht Hc Hl Hi.
  assert (Hnone : match legal_moves b1 with [] => true | _ => false end
                  = match legal_moves b2 with [] => true | _ => false end).
  { destruct (legal_moves b1), (legal_moves b2); simpl in Hl;
      try discriminate; reflexivity. }
  assert (Hmat : material_score b1 = material_score b2).
  { rewrite !material_score_total. f_equal. apply map_ext_in.
    intros sq Hsq. apply in_SQUARES in Hsq. unfold square_value.
    rewrite (Hp sq Hsq). reflexivity. }
  assert (Hpawn : evaluate_pawn_structure_simple b1
                  = evaluate_pawn_structure_simple b2).
  { rewrite !pawn_structure_total. f_equal; f_equal; apply map_ext_in;
      intros sq Hsq; apply in_SQUARES in Hsq;
      destruct (square_mirror_coordinates Hsq) as (_ & Hf & Hr & _);
      unfold white_pawn_value, black_pawn_value; rewrite (Hp sq Hsq);
      (rewrite (@is_passed_same_pieces b1 b2);
       [reflexivity|exact Hp|exact Hf|]);
      unfold range; intros r Hin; apply in_seq in Hin; lia. }
  unfold evaluate_board, is_checkmate, is_stalemate, mobility_score.
  rewrite Hc, Hnone, Ht, Hi, Hmat, Hpawn, Hl. reflexivity.
Qed.

Section DriverFrame.

Hypothesis push_pop : PushPopLaw R.

Variable clock : nat -> Q.
Variables start_time time_limit : Q.
Variable ordered : list Move.

Lemma root_loop_board (depth : nat) (best_move : option Move)
    (moves : list Move) :
  forall (current_best : option Move) (current_best_value : score)
         (w : World),
    board (snd (root_loop clock start_time time_limit depth ordered
                          best_move moves current_best current_best_value w))
    = board w.
Proof.
  induction moves as [|move rest IH]; intros cb cbv w; [reflexivity|].
  cbn [root_loop]. unfold bind, time_time.
  destruct (negb (Qle_bool _ _)); [reflexivity|].
  unfold board_push, board_pop. cbn [board nodes_searched clock_reads].
  destruct (minimax_alpha_beta_run push_pop (depth - 1) false
              (mkWorld (push (board w) move) (nodes_searched w)
                       (S (clock_reads w))) NegInf PosInf) as (n & _ & ->).
  cbn [board counted nodes_searched clock_reads]. rewrite push_pop.
  destruct (slt cbv _); rewrite IH; reflexivity.
Qed.

Lemma deepening_loop_board (depths : list nat) :
  forall (best_move : option Move) (w : World),
    board (snd (deepening_loop clock start_time time_limit ordered depths
                               best_move w))
    = board w.
Proof.
  induction depths as [|depth rest IH]; intros best_move w; [reflexivity|].
  cbn [deepening_loop]. unfold bind, reset_nodes.
  pose proof (root_loop_board depth best_move ordered None NegInf
                (mkWorld (board w) 0 (clock_reads w))) as Hroot.
  destruct (root_loop _ _ _ _ _ _ _ _ _ _) as [[result|[cb cbv]] w1];
    cbn [snd board] in Hroot; [exact Hroot|].
  destruct (slt (Zscore 5000) cbv); [exact Hroot|].
  unfold time_time. cbn [board].
  destruct (negb (Qle_bool _ _)); [exact Hroot|].
  rewrite IH. exact Hroot.
Qed.

End DriverFrame.

(** X17.  Whatever the clock, the time limit and the maximal depth, the
    driver leaves the board as it found it. *)
Theorem driver_restores_board (clock : nat -> Q) (max_depth : nat)
    (time_limit : Q) (w : World) :
  PushPopLaw R ->
  board (snd (get_best_move_fast clock max_depth time_limit w)) = board w.
Proof.
  intros push_pop.
  unfold get_best_move_fast, bind at 1 2, time_time, get_board.
  cbn [board nodes_searched clock_reads].
  destruct (legal_moves (board w)) as [|m1 [|m2 rest]]; [reflexivity..|].
  rewrite get_opening_move_none. cbn [truthy].
  unfold bind. rewrite order_moves_fast_run by exact push_pop.
  rewrite (deepening_loop_board push_pop). reflexivity.
Qed.

End MoreProperties.

(** ** The further properties on the executable rules engine *)

Lemma pychess_no_moves : @NoMovesLaw PyChess.Board PyChess.rules.
Proof.
  intros b H. change (PyChess.legal_moves b = []) in H.
  change (PyChess.is_game_over b = true).
  unfold PyChess.is_game_over, PyChess.no_moves. rewrite H. reflexivity.
Qed.

Lemma same_pieces_check (b1 b2 : PyChess.Board) :
  forallb (fun sq => opt_eqb Piece_eqb (piece_at b1 sq) (piece_at b2 sq))
          SQUARES = true ->
  forall sq, sq < 64 -> piece_at b1 sq = piece_at b2 sq.
Proof.
  intros H sq Hsq. apply opt_Piece_eqb_eq. exact (all_squares _ H Hsq).
Qed.

Lemma no_piece_check (b : PyChess.Board) (piece : Piece) :
  forallb (fun sq => negb (opt_eqb Piece_eqb (piece_at b sq) (Some piece)))
          SQUARES = true ->
  forall sq, sq < 64 -> piece_at b sq <> Some piece.
Proof.
  intros H sq Hsq E. pose proof (all_squares _ H Hsq) as H'.
  cbv beta in H'. rewrite E in H'. apply negb_true_iff in H'.
  destruct piece as [[] []]; discriminate H'.
Qed.

Lemma search_result_bounds_minimax_witness :
  let w := PyChess.fresh_world PyChess.small_board in
  let r := fst (minimax_alpha_beta 2 (Zscore (-1)) (Zscore 1) true w) in
  let v := minimax_exhaustive 2 PyChess.small_board true in
  PushPopLaw PyChess.rules
  /\ slt (Zscore (-1)) (Zscore 1) = true
  /\ (sle r (Zscore (-1)) = true -> sle v r = true)
  /\ (sle (Zscore 1) r = true -> sle r v = true)
  /\ (slt (Zscore (-1)) r = true -> slt r (Zscore 1) = true -> r = v).
Proof.
  cbv zeta.
  assert (H : PushPopLaw PyChess.rules) by (intros [s st] m; reflexivity).
  assert (Hw : slt (Zscore (-1)) (Zscore 1) = true) by reflexivity.
  split; [exact H|]. split; [exact Hw|].
  exact (search_result_bounds_minimax 2 (Zscore (-1)) (Zscore 1) true
           (PyChess.fresh_world PyChess.small_board) H Hw).
Defined.

Lemma mate_scores_agree_iff_witness :
  let w := PyChess.fresh_world PyChess.fools_mate in
  is_checkmate PyChess.fools_mate = true
  /\ is_game_over PyChess.fools_mate = true
  /\ (fst (minimax_alpha_beta 1 NegInf PosInf false w)
      = evaluate_board PyChess.fools_mate
      <-> false = turn PyChess.fools_mate).
Proof.
  cbv zeta.
  assert (H1 : is_checkmate PyChess.fools_mate = true)
    by (vm_compute; reflexivity).
  assert (H2 : is_game_over PyChess.fools_mate = true)
    by (vm_compute; reflexivity).
  split; [exact H1|]. split; [exact H2|].
  exact (mate_scores_agree_iff 0 NegInf PosInf false
           (PyChess.fresh_world PyChess.fools_mate) H1 H2).
Defined.

Lemma positional_bonus_bounded_witness :
  27 < 64
  /\ (-50 <= get_positional_bonus (PyChess.black KNIGHT) 27%nat <= 50)%Z
  /\ (0 < piece_values KNIGHT
          + get_positional_bonus (PyChess.black KNIGHT) 27%nat)%Z.
Proof.
  assert (H : 27 < 64) by lia.
  split; [exact H|].
  exact (positional_bonus_bounded (PyChess.black KNIGHT) H).
Defined.

Lemma positional_bonus_left_right_witness :
  10 < 64
  /\ get_positional_bonus (PyChess.white QUEEN) (square_flip 10)
     = get_positional_bonus (PyChess.white QUEEN) 10.
Proof.
  assert (H : 10 < 64) by lia.
  split; [exact H|].
  exact (positional_bonus_left_right (PyChess.white QUEEN) H).
Defined.

Lemma evaluation_antisymmetric_with_mobility_witness :
  let b := PyChess.kings_pawn in
  let b' := PyChess.kings_pawn_mirrored in
  color_mirrored b b'
  /\ List.length (legal_moves b') = List.length (legal_moves b)
  /\ evaluate_board b' = sopp (evaluate_board b).
Proof.
  cbv zeta.
  assert (H : color_mirrored PyChess.kings_pawn PyChess.kings_pawn_mirrored)
    by (apply mirroredb_color_mirrored; vm_compute; reflexivity).
  assert (Hl : List.length (legal_moves PyChess.kings_pawn_mirrored)
               = List.length (legal_moves PyChess.kings_pawn))
    by (vm_compute; reflexivity).
  split; [exact H|]. split; [exact Hl|].
  exact (evaluation_antisymmetric_with_mobility H Hl).
Defined.

Lemma pawn_structure_unopposed_witness :
  let b := PyChess.small_board in
  (forall sq, sq < 64 -> piece_at b sq <> Some (mkPiece PAWN BLACK))
  /\ evaluate_pawn_structure_simple b
     = (10 * total (map (fun sq => Z.of_nat (square_rank sq))
                        (pieces b PAWN WHITE)))%Z.
Proof.
  cbv zeta.
  assert (H : forall sq, sq < 64 ->
                piece_at PyChess.small_board sq <> Some (mkPiece PAWN BLACK))
    by (apply no_piece_check; vm_compute; reflexivity).
  split; [exact H|].
  exact (proj1 (pawn_structure_unopposed PyChess.small_board) H).
Defined.


Lemma king_capture_after_quiet_move_witness :
  let b := PyChess.king_capture_board in
  let w := PyChess.fresh_world b in
  PushPopLaw PyChess.rules
  /\ In (from_uci "e1e2") (legal_moves b)
  /\ In (from_uci "e1d2") (legal_moves b)
  /\ is_capture b (from_uci "e1e2") = true
  /\ precedes (from_uci "e1d2") (from_uci "e1e2")
              (fst (order_moves_fast (legal_moves b) w)).
Proof.
  cbv zeta.
  assert (H : PushPopLaw PyChess.rules) by (intros [s st] m; reflexivity).
  assert (H1 : In (from_uci "e1e2") (legal_moves PyChess.king_capture_board))
    by (apply is_legal_In; vm_compute; reflexivity).
  assert (H2 : In (from_uci "e1d2") (legal_moves PyChess.king_capture_board))
    by (apply is_legal_In; vm_compute; reflexivity).
  assert (H3 : is_capture PyChess.king_capture_board (from_uci "e1e2") = true)
    by (vm_compute; reflexivity).
  split; [exact H|]. split; [exact H1|]. split; [exact H2|].
  split; [exact H3|].
  apply (@king_capture_after_quiet_move _ _ H
           (PyChess.fresh_world PyChess.king_capture_board)
           (legal_moves PyChess.king_capture_board)
           (from_uci "e1e2") (from_uci "e1d2")
           (PyChess.black PAWN) (PyChess.white KING) H1 H2 H3);
    try (vm_compute; reflexivity).
  discriminate.
Defined.

Lemma promotion_before_quiet_move_witness :
  let b := PyChess.promotion_board in
  let w := PyChess.fresh_world b in
  let promo := mkMove 48 56 (Some KNIGHT) in
  PushPopLaw PyChess.rules
  /\ In promo (legal_moves b)
  /\ In (from_uci "e1e2") (legal_moves b)
  /\ precedes promo (from_uci "e1e2")
              (fst (order_moves_fast (legal_moves b) w)).
Proof.
  cbv zeta.
  assert (H : PushPopLaw PyChess.rules) by (intros [s st] m; reflexivity).
  assert (H1 : In (mkMove 48 56 (Some KNIGHT))
                  (legal_moves PyChess.promotion_board))
    by (apply is_legal_In; vm_compute; reflexivity).
  assert (H2 : In (from_uci "e1e2") (legal_moves PyChess.promotion_board))
    by (apply is_legal_In; vm_compute; reflexivity).
  split; [exact H|]. split; [exact H1|]. split; [exact H2|].
  apply (@promotion_before_quiet_move _ _ H
           (PyChess.fresh_world PyChess.promotion_board)
           (legal_moves PyChess.promotion_board)
           (mkMove 48 56 (Some KNIGHT)) (from_uci "e1e2")
           KNIGHT (PyChess.white PAWN) H1 H2);
    vm_compute; reflexivity.
Defined.

Lemma check_before_quiet_move_witness :
  let b := PyChess.rook_board in
  let w := PyChess.fresh_world b in
  PushPopLaw PyChess.rules
  /\ In (from_uci "a1a8") (legal_moves b)
  /\ In (from_uci "a1a2") (legal_moves b)
  /\ is_check (push b (from_uci "a1a8")) = true
  /\ precedes (from_uci "a1a8") (from_uci "a1a2")
              (fst (order_moves_fast (legal_moves b) w)).
Proof.
  cbv zeta.
  assert (H : PushPopLaw PyChess.rules) by (intros [s st] m; reflexivity).
  assert (H1 : In (from_uci "a1a8") (legal_moves PyChess.rook_board))
    by (apply is_legal_In; vm_compute; reflexivity).
  assert (H2 : In (from_uci "a1a2") (legal_moves PyChess.rook_board))
    by (apply is_legal_In; vm_compute; reflexivity).
  assert (H3 : is_check (push PyChess.rook_board (from_uci "a1a8")) = true)
    by (vm_compute; reflexivity).
  split; [exact H|]. split; [exact H1|]. split; [exact H2|].
  split; [exact H3|].
  apply (@check_before_quiet_move _ _ H
           (PyChess.fresh_world PyChess.rook_board)
           (legal_moves PyChess.rook_board)
           (from_uci "a1a8") (from_uci "a1a2") H1 H2);
    try exact H3; vm_compute; reflexivity.
Defined.

Lemma order_moves_fast_idempotent_witness :
  let b := PyChess.capture_board in
  let w := PyChess.fresh_world b in
  let ordered := fst (order_moves_fast (legal_moves b) w) in
  PushPopLaw PyChess.rules
  /\ fst (order_moves_fast ordered w) = ordered.
Proof.
  cbv zeta.
  assert (H : PushPopLaw PyChess.rules) by (intros [s st] m; reflexivity).
  split; [exact H|].
  exact (order_moves_fast_idempotent H
           (PyChess.fresh_world PyChess.capture_board)
           (legal_moves PyChess.capture_board)).
Defined.

Lemma nodes_searched_bounded_witness :
  let w := PyChess.fresh_world PyChess.small_board in
  let w' := snd (minimax_alpha_beta 2 NegInf PosInf true w) in
  PushPopLaw PyChess.rules
  /\ (0 < nodes_searched w' - nodes_searched w
      <= tree_size 2 PyChess.small_board)%Z.
Proof.
  cbv zeta.
  assert (H : PushPopLaw PyChess.rules) by (intros [s st] m; reflexivity).
  split; [exact H|].
  exact (nodes_searched_bounded 2 NegInf PosInf true
           (PyChess.fresh_world PyChess.small_board) H).
Defined.

Lemma no_time_returns_first_ordered_witness :
  let b := PyChess.small_board in
  let w := PyChess.fresh_world b in
  PushPopLaw PyChess.rules
  /\ legal_moves b
     = [from_uci "e1d1"; from_uci "e1f1"; from_uci "e1d2"; from_uci "e1f2";
        from_uci "e2e3"; from_uci "e2e4"]
  /\ Qle_bool (PyChess.racing_clock 1 - PyChess.racing_clock 0) 1 = false
  /\ get_best_move_fast PyChess.racing_clock 3 1%Q w
     = (hd_error (ordered_moves b (legal_moves b)), mkWorld b 0 2).
Proof.
  cbv zeta.
  assert (H : PushPopLaw PyChess.rules) by (intros [s st] m; reflexivity).
  assert (Hl : legal_moves PyChess.small_board
               = [from_uci "e1d1"; from_uci "e1f1"; from_uci "e1d2";
                  from_uci "e1f2"; from_uci "e2e3"; from_uci "e2e4"])
    by (vm_compute; reflexivity).
  assert (Ht : Qle_bool (PyChess.racing_clock 1 - PyChess.racing_clock 0) 1
               = false) by reflexivity.
  split; [exact H|]. split; [exact Hl|]. split; [exact Ht|].
  exact (proj2 (no_time_returns_first_ordered PyChess.racing_clock 3 1%Q
                  (PyChess.fresh_world PyChess.small_board) H Hl)
               ltac:(lia) Ht).
Defined.

Lemma deepest_iteration_best_move_witness :
  let b := PyChess.small_board in
  let w := PyChess.fresh_world b in
  PushPopLaw PyChess.rules
  /\ in_time PyChess.still_clock (PyChess.still_clock 0) 2%Q
  /\ exists depth move,
       1 <= depth <= 2
       /\ fst (get_best_move_fast PyChess.still_clock 2 2%Q w) = Some move
       /\ In move (legal_moves b)
       /\ (forall other, In other (legal_moves b) ->
             sle (root_value depth b other) (root_value depth b move) = true)
       /\ (depth = 2 \/ slt (Zscore 5000) (root_value depth b move) = true).
Proof.
  cbv zeta.
  assert (H : PushPopLaw PyChess.rules) by (intros [s st] m; reflexivity).
  assert (Hl : legal_moves PyChess.small_board
               = [from_uci "e1d1"; from_uci "e1f1"; from_uci "e1d2";
                  from_uci "e1f2"; from_uci "e2e3"; from_uci "e2e4"])
    by (vm_compute; reflexivity).
  assert (Hb : forall move, In move (legal_moves PyChess.small_board) ->
                            Move_bool move = true).
  { rewrite Hl. intros move Hm. cbn [In] in Hm.
    repeat (destruct Hm as [<-|Hm]; [reflexivity|]). destruct Hm. }
  assert (Ht : in_time PyChess.still_clock (PyChess.still_clock 0) 2%Q)
    by (intros k; split; reflexivity).
  split; [exact H|]. split; [exact Ht|].
  exact (deepest_iteration_best_move (max_depth := 2)
           (PyChess.fresh_world PyChess.small_board) H pychess_no_moves Hl Hb
           Ht ltac:(lia)).
Defined.

Lemma evaluate_board_depends_on_witness :
  let b1 := PyChess.starting_board in
  let b2 := PyChess.starting_board_again in
  fen b1 <> fen b2
  /\ (forall sq, sq < 64 -> piece_at b1 sq = piece_at b2 sq)
  /\ evaluate_board b1 = evaluate_board b2.
Proof.
  cbv zeta.
  assert (Hf : fen PyChess.starting_board <> fen PyChess.starting_board_again)
    by (vm_compute; discriminate).
  assert (Hp : forall sq, sq < 64 ->
                 piece_at PyChess.starting_board sq
                 = piece_at PyChess.starting_board_again sq)
    by (apply same_pieces_check; vm_compute; reflexivity).
  split; [exact Hf|]. split; [exact Hp|].
  apply (@evaluate_board_depends_on _ _ PyChess.starting_board
           PyChess.starting_board_again Hp);
    vm_compute; reflexivity.
Defined.

Lemma driver_restores_board_witness :
  let w := PyChess.fresh_world PyChess.small_board in
  PushPopLaw PyChess.rules
  /\ board (snd (get_best_move_fast PyChess.still_clock 2 2%Q w))
     = PyChess.small_board.
Proof.
  cbv zeta.
  assert (H : PushPopLaw PyChess.rules) by (intros [s st] m; reflexivity).
  split; [exact H|].
  exact (driver_restores_board PyChess.still_clock 2 2%Q
           (PyChess.fresh_world PyChess.small_board) H).
Defined.
